(** * ThreatRadar: the dashboard client and the aggregation engine

    The development has two layers.

    - The presentation code of the repository ([services/api.ts],
      [ThreatTable], [ThreatLevelChart], [FeedStatus], [types/threat.ts])
      is embedded function by function: JavaScript values are a small
      inductive type, objects are finite maps from property names, the
      [Set] of expanded rows is a finite set, JavaScript numbers that the
      code divides are binary64 floats.
    - The aggregation engine (merge, store, scorer, correlator,
      statistics) is not among the source files; it is modelled from the
      written specification, and every such definition says so. *)

From Stdlib Require Import ZArith Floats Uint63 QArith Ascii Sorted Permutation.
From stdpp Require Import base strings list gmap pretty.

#[local] Set Warnings "-register-all".
#[local] Open Scope Z_scope.

(** ** JavaScript values *)

Module Js.

(** The values that travel through the client: what [JSON.parse] can
    produce, plus [undefined] and [Date] objects.  A [Date] holds its
    time value, an integral number of milliseconds or [NaN] ([None],
    an "Invalid Date"). *)
Inductive Value :=
  | Undefined
  | Null
  | Bool (b : bool)
  | Num (f : float)
  | Str (s : string)
  | Arr (l : list Value)
  | Obj (m : gmap string Value)
  | DateV (t : option Z).

(** Errors a promise can be rejected with. *)
Inductive Error :=
  | ErrorMsg (message : string)   (* [new Error(message)] *)
  | TypeError                     (* property access or call on a non-object *)
  | SyntaxError                   (* [response.json()] on a malformed body *)
  | NetworkFailure (message : string). (* [fetch] itself rejected *)

(** [ToBoolean]: the falsy values are [undefined], [null], [false],
    [+0], [-0], [NaN] and the empty string. *)
Definition to_boolean (v : Value) : bool :=
  match v with
  | Undefined | Null => false
  | Bool b => b
  | Num f => negb (PrimFloat.is_zero f || PrimFloat.is_nan f)
  | Str s => negb (String.eqb s "")
  | Arr _ | Obj _ | DateV _ => true
  end.

(** [a || b] *)
Definition or (a b : Value) : Value := if to_boolean a then a else b.

(** What an object holds under a property name; an absent property
    reads as [undefined]. *)
Definition prop (m : gmap string Value) (k : string) : Value :=
  default Undefined (m !! k).

(** [o.k] for a data property [k]: reading from [undefined] or [null]
    throws. *)
Definition get (o : Value) (k : string) : Error + Value :=
  match o with
  | Undefined | Null => inl TypeError
  | Obj m => inr (prop m k)
  | _ => inr Undefined
  end.

(** An object literal [{ k1: v1, ..., kn: vn }]. *)
Definition object (fields : list (string * Value)) : Value :=
  Obj (list_to_map fields).

(** What the host environment decides: how [new Date(v)] reads a
    value (time zone, accepted formats) and how numbers and dates
    print under the user's locale. *)
Class Platform := {
  date_time : Value -> option Z;
  number_toLocaleString : float -> string;
  date_toLocaleString : option Z -> string;
}.

(** [new Date(v)] *)
Definition new_Date `{Platform} (v : Value) : Value := DateV (date_time v).

Fixpoint join (sep : string) (l : list string) : string :=
  match l with
  | [] => ""
  | [s] => s
  | s :: r => s +:+ sep +:+ join sep r
  end.

(** [v.toLocaleString()]: a number and a date print as the host's
    locale says, an array prints its elements separated by commas. *)
Fixpoint toLocaleString `{Platform} (v : Value) : Error + string :=
  match v with
  | Undefined | Null => inl TypeError
  | Num f => inr (number_toLocaleString f)
  | Str s => inr s
  | Bool b => inr (if b then "true" else "false")
  | Arr l =>
      inr (join ","
             (map (fun x => match toLocaleString x with
                            | inr s => s
                            | inl _ => ""
                            end) l))
  | Obj _ => inr "[object Object]"
  | DateV t => inr (date_toLocaleString t)
  end.

End Js.

(** ** [types/threat.ts] *)

Module Threat.

Inductive ThreatLevel := critical | high | medium | low | info.

Inductive IOCType := ip | domain | hash | url | email.

#[global] Instance ThreatLevel_eq_dec : EqDecision ThreatLevel.
Proof. solve_decision. Defined.
#[global] Instance IOCType_eq_dec : EqDecision IOCType.
Proof. solve_decision. Defined.

(** The string literal behind each member of the union type. *)
Definition IOCType_name (t : IOCType) : string :=
  match t with
  | ip => "ip" | domain => "domain" | hash => "hash"
  | url => "url" | email => "email"
  end.

Definition ThreatLevel_name (l : ThreatLevel) : string :=
  match l with
  | critical => "critical" | high => "high" | medium => "medium"
  | low => "low" | info => "info"
  end.

(** [ThreatIndicator], with the field types of the interface;
    [score] is the integer the interface documents as 0-100, a
    [Date] is its time value ([None] for an invalid date). *)
Record ThreatIndicator := {
  id : string;
  value : string;
  type : IOCType;
  threatLevel : ThreatLevel;
  score : Z;
  sources : list string;
  firstSeen : option Z;
  lastSeen : option Z;
  tags : list string;
  description : option string;
  correlations : option (list string);
}.

(** [ThreatStats]: the counters are integers. *)
Record ThreatStats := {
  totalIndicators : Z;
  criticalCount : Z;
  highCount : Z;
  mediumCount : Z;
  lowCount : Z;
  infoCount : Z;
  activeFeeds : Z;
  correlatedIOCs : Z;
  last24hNew : Z;
}.

End Threat.

(** ** [services/api.ts] *)

Module Api.
Import Js.

(** What [await fetch(...)] yields: the promise rejects, or resolves
    to a response.  [json] is the outcome of [response.json()]. *)
Record Response := {
  ok : bool;
  status : N;
  statusText : string;
  json : Error + Value;
}.

Inductive FetchOutcome :=
  | Rejected (e : Error)
  | Resolved (r : Response).

(** [RequestInit], as far as the client fills it. *)
Record RequestInit := {
  method : option string;
  headers : list (string * string);
}.

(** What lies outside the client: the build-time variable
    [VITE_API_URL] and the network behind [fetch]. *)
Class Environment := {
  VITE_API_URL : option string;
  fetch : string -> RequestInit -> FetchOutcome;
}.

(** [import.meta.env.VITE_API_URL || 'http://localhost:8000/api/v1'] *)
Definition API_BASE_URL `{Environment} : string :=
  match VITE_API_URL with
  | Some u => if String.eqb u "" then "http://localhost:8000/api/v1" else u
  | None => "http://localhost:8000/api/v1"
  end.

(** Lines written by [console.error]. *)
Definition Console := list (string * Error).

(** An [async] function: what it logged, and how its promise
    settled. *)
Definition Async (A : Type) : Type := Console * (Error + A).

Definition resolve {A} (a : A) : Async A := ([], inr a).
Definition reject {A} (e : Error) : Async A := ([], inl e).

(** [await m] followed by the rest of the function body. *)
Definition await {A B} (m : Async A) (k : A -> Async B) : Async B :=
  match m with
  | (log, inl e) => (log, inl e)
  | (log, inr a) => let '(log', r) := k a in (log ++ log', r)
  end.

(** A synchronous step that may throw. *)
Definition try_ {A B} (r : Error + A) (k : A -> Async B) : Async B :=
  match r with
  | inl e => reject e
  | inr a => k a
  end.

Notation "'await!' x := m 'in' k" := (await m (fun x => k))
  (at level 10, x name, m at level 100, k at level 200).
Notation "'try!' x := r 'in' k" := (try_ r (fun x => k))
  (at level 10, x name, r at level 100, k at level 200).

(** The second argument of [fetch]: the caller's options, with the
    content type put in front of the caller's headers. *)
Definition requestInit (options : option RequestInit) : RequestInit :=
  {| method := options ≫= method;
     headers := ("Content-Type", "application/json")
                :: from_option headers [] options |}.

(** [apiFetch]: the body of the [try] block, then the [catch] clause
    that logs and rethrows. *)
Definition apiFetch_try `{Environment} (endpoint : string)
    (options : option RequestInit) : Error + Value :=
  match fetch (API_BASE_URL +:+ endpoint) (requestInit options) with
  | Rejected e => inl e
  | Resolved response =>
      if negb (ok response) then
        inl (ErrorMsg ("API error: " +:+ pretty (status response)
                       +:+ " " +:+ statusText response))
      else json response
  end.

Definition apiFetch `{Environment} (endpoint : string)
    (options : option RequestInit) : Async Value :=
  match apiFetch_try endpoint options with
  | inl error => ([("API request failed:", error)], inl error)
  | inr v => resolve v
  end.

(** *** [URLSearchParams] *)

Definition hex_digit (n : N) : ascii :=
  ascii_of_N (if (n <? 10)%N then 48 + n else 55 + n).

(** The form-urlencoded serializer: letters, digits and [* - . _] stay,
    a space becomes [+], any other byte becomes [%XX]. *)
Definition urlencode_byte (c : ascii) : string :=
  let n := N_of_ascii c in
  if ((48 <=? n) && (n <=? 57) || (65 <=? n) && (n <=? 90)
      || (97 <=? n) && (n <=? 122)
      || (n =? 42) || (n =? 45) || (n =? 46) || (n =? 95))%N
  then String c EmptyString
  else if (n =? 32)%N then "+"
  else String "%" (String (hex_digit (n / 16)) (String (hex_digit (n mod 16))
                                                 EmptyString)).

Fixpoint urlencode (s : string) : string :=
  match s with
  | EmptyString => EmptyString
  | String c r => urlencode_byte c +:+ urlencode r
  end.

(** [queryParams.toString()] for the appended pairs, in order. *)
Definition URLSearchParams_toString (pairs : list (string * string)) : string :=
  join "&" (map (fun p => urlencode (fst p) +:+ "=" +:+ urlencode (snd p)) pairs).

(** The [params] argument of [fetchIndicators]; [limit] and [offset]
    are integers. *)
Record IndicatorParams := {
  search : option string;
  types : option (list Threat.IOCType);
  levels : option (list Threat.ThreatLevel);
  sources : option (list string);
  limit : option Z;
  offset : option Z;
}.

(** [if (x) queryParams.append(name, ...)]: an absent value, an empty
    string and the number 0 append nothing. *)
Definition append_string (name : string) (x : option string)
  : list (string * string) :=
  match x with
  | Some s => if String.eqb s "" then [] else [(name, s)]
  | None => []
  end.

Definition append_number (name : string) (x : option Z)
  : list (string * string) :=
  match x with
  | Some n => if n =? 0 then [] else [(name, pretty n)]
  | None => []
  end.

(** [xs?.forEach(x => queryParams.append(name, x))] *)
Definition append_each {A} (name : string) (show : A -> string)
    (xs : option (list A)) : list (string * string) :=
  map (fun x => (name, show x)) (from_option id [] xs).

Definition queryParams (params : option IndicatorParams)
  : list (string * string) :=
  append_string "search" (params ≫= search)
  ++ append_number "limit" (params ≫= limit)
  ++ append_number "offset" (params ≫= offset)
  ++ append_each "types" Threat.IOCType_name (params ≫= types)
  ++ append_each "levels" Threat.ThreatLevel_name (params ≫= levels)
  ++ append_each "sources" id (params ≫= sources).

Definition indicatorsEndpoint (params : option IndicatorParams) : string :=
  let query := URLSearchParams_toString (queryParams params) in
  "/indicators" +:+ (if String.eqb query "" then "" else "?" +:+ query).

(** [data.map(f)] where [f] may throw. *)
Fixpoint map_throwing (f : Value -> Error + Value) (l : list Value)
  : Error + list Value :=
  match l with
  | [] => inr []
  | x :: xs =>
      match f x with
      | inl e => inl e
      | inr y =>
          match map_throwing f xs with
          | inl e => inl e
          | inr ys => inr (y :: ys)
          end
      end
  end.

Definition array_map (data : Value) (f : Value -> Error + Value)
  : Error + Value :=
  match data with
  | Arr l =>
      match map_throwing f l with
      | inl e => inl e
      | inr l' => inr (Arr l')
      end
  | _ => inl TypeError
  end.

Notation "o '.[' k ']'" := (Js.get o k) (at level 1, format "o .[ k ]").

(** Reads of several properties of one object, in sequence. *)
Definition bind {A B} (r : Error + A) (k : A -> Error + B) : Error + B :=
  match r with inl e => inl e | inr a => k a end.
Notation "'let?' x := r 'in' k" := (bind r (fun x => k))
  (at level 10, x name, r at level 100, k at level 200).

Section WithEnvironment.
Context `{Platform} `{Environment}.

(** [fetchIndicators] *)
Definition fetchIndicators (params : option IndicatorParams) : Async Value :=
  let endpoint := indicatorsEndpoint params in
  await! data := apiFetch endpoint None in
  try! out := array_map data (fun indicator =>
    let? id := indicator.["id"] in
    let? value := indicator.["value"] in
    let? type := indicator.["type"] in
    let? threat_level := indicator.["threat_level"] in
    let? score := indicator.["score"] in
    let? sources := indicator.["sources"] in
    let? first_seen := indicator.["first_seen"] in
    let? last_seen := indicator.["last_seen"] in
    let? tags := indicator.["tags"] in
    let? description := indicator.["description"] in
    let? correlations := indicator.["correlations"] in
    inr (object [
      ("id", id);
      ("value", value);
      ("type", type);
      ("threatLevel", threat_level);
      ("score", score);
      ("sources", sources);
      ("firstSeen", new_Date first_seen);
      ("lastSeen", new_Date last_seen);
      ("tags", tags);
      ("description", description);
      ("correlations", correlations)
    ])) in
  resolve out.

(** [fetchFeeds] *)
Definition fetchFeeds : Async Value :=
  await! data := apiFetch "/feeds" None in
  try! out := array_map data (fun feed =>
    let? id := feed.["id"] in
    let? name := feed.["name"] in
    let? description := feed.["description"] in
    let? url := feed.["url"] in
    let? last_updated := feed.["last_updated"] in
    let? indicator_count := feed.["indicator_count"] in
    let? status := feed.["status"] in
    let? reliability := feed.["reliability"] in
    inr (object [
      ("id", id);
      ("name", name);
      ("description", description);
      ("url", url);
      ("lastUpdated", new_Date last_updated);
      ("indicatorCount", Js.or indicator_count (Num 0));
      ("status", status);
      ("reliability", reliability)
    ])) in
  resolve out.

(** [fetchStatistics] *)
Definition fetchStatistics : Async Value :=
  await! data := apiFetch "/statistics" None in
  try! out := (
    let? total_indicators := data.["total_indicators"] in
    let? critical_count := data.["critical_count"] in
    let? high_count := data.["high_count"] in
    let? medium_count := data.["medium_count"] in
    let? low_count := data.["low_count"] in
    let? info_count := data.["info_count"] in
    let? active_feeds := data.["active_feeds"] in
    let? correlated_iocs := data.["correlated_iocs"] in
    let? last_24h_new := data.["last_24h_new"] in
    inr (object [
      ("totalIndicators", total_indicators);
      ("criticalCount", critical_count);
      ("highCount", high_count);
      ("mediumCount", medium_count);
      ("lowCount", low_count);
      ("infoCount", info_count);
      ("activeFeeds", active_feeds);
      ("correlatedIOCs", correlated_iocs);
      ("last24hNew", last_24h_new)
    ])) in
  resolve out.

(** [fetchIndicatorById] *)
Definition fetchIndicatorById (id : string) : Async Value :=
  await! data := apiFetch ("/indicators/" +:+ id) None in
  try! out := (
    let? id := data.["id"] in
    let? value := data.["value"] in
    let? type := data.["type"] in
    let? threat_level := data.["threat_level"] in
    let? score := data.["score"] in
    let? sources := data.["sources"] in
    let? first_seen := data.["first_seen"] in
    let? last_seen := data.["last_seen"] in
    let? tags := data.["tags"] in
    let? description := data.["description"] in
    let? correlations := data.["correlations"] in
    inr (object [
      ("id", id);
      ("value", value);
      ("type", type);
      ("threatLevel", threat_level);
      ("score", score);
      ("sources", sources);
      ("firstSeen", new_Date first_seen);
      ("lastSeen", new_Date last_seen);
      ("tags", tags);
      ("description", description);
      ("correlations", correlations)
    ])) in
  resolve out.

(** [triggerFeedUpdate] *)
Definition triggerFeedUpdate : Async Value :=
  apiFetch "/feeds/update" (Some {| method := Some "POST"; headers := [] |}).

(** [checkHealth] *)
Definition checkHealth : Async Value := apiFetch "/health" None.

End WithEnvironment.

(** A successful response carrying [body]. *)
Definition ok_response (body : Value) : FetchOutcome :=
  Resolved {| ok := true; status := 200; statusText := "OK";
              json := inr body |}.

End Api.

(** ** [ThreatTable] *)

Module ThreatTable.
Import Threat.

Inductive SortField := by_score | by_lastSeen | by_type | by_threatLevel.
Inductive SortDirection := asc | desc.

#[global] Instance SortField_eq_dec : EqDecision SortField.
Proof. solve_decision. Defined.

(** The four [useState] cells of the component. *)
Record State := {
  sortField : SortField;
  sortDirection : SortDirection;
  copiedId : option string;
  expandedRows : gset string;
}.

Definition initial : State :=
  {| sortField := by_score; sortDirection := desc;
     copiedId := None; expandedRows := ∅ |}.

Definition handleSort (field : SortField) (st : State) : State :=
  if decide (sortField st = field) then
    {| sortField := sortField st;
       sortDirection :=
         match sortDirection st with asc => desc | desc => asc end;
       copiedId := copiedId st; expandedRows := expandedRows st |}
  else
    {| sortField := field; sortDirection := desc;
       copiedId := copiedId st; expandedRows := expandedRows st |}.

(** The number a comparator returns: an integer or [NaN]. *)
Inductive Number := NaN | Int (z : Z).

Definition sub (a b : Number) : Number :=
  match a, b with
  | Int x, Int y => Int (x - y)
  | _, _ => NaN
  end.

Definition neg (a : Number) : Number :=
  match a with Int x => Int (- x) | NaN => NaN end.

(** [date.getTime()] *)
Definition getTime (d : option Z) : Number :=
  match d with Some t => Int t | None => NaN end.

(** [a.localeCompare(b)] on the lower-case ASCII names of the IOC
    types, where every collation is the alphabetical order. *)
Definition localeCompare (a b : string) : Number :=
  match String.compare a b with
  | Lt => Int (-1)
  | Eq => Int 0
  | Gt => Int 1
  end.

Definition levelOrder (l : ThreatLevel) : Z :=
  match l with
  | critical => 5 | high => 4 | medium => 3 | low => 2 | info => 1
  end.

(** The arrow function passed to [sort]. *)
Definition compareFn (field : SortField) (direction : SortDirection)
    (a b : ThreatIndicator) : Number :=
  let comparison :=
    match field with
    | by_score => Int (score a - score b)
    | by_lastSeen => sub (getTime (lastSeen a)) (getTime (lastSeen b))
    | by_type => localeCompare (IOCType_name (type a)) (IOCType_name (type b))
    | by_threatLevel =>
        Int (levelOrder (threatLevel a) - levelOrder (threatLevel b))
    end in
  match direction with
  | asc => comparison
  | desc => neg comparison
  end.

(** [Array.prototype.sort]: a [NaN] from the comparator counts as 0,
    and the sort is stable.  For a consistent comparator (one that
    orders the elements, as the comparisons of scores, types and
    levels do, and of dates when all are valid) that fixes the
    result; it is computed here by stable insertion: an element goes
    in front of the first later element it does not exceed.  With an
    inconsistent comparator the language leaves the order to the
    engine. *)
Definition sort_le {A} (cmp : A -> A -> Number) (x y : A) : bool :=
  match cmp x y with
  | NaN => true
  | Int v => v <=? 0
  end.

Fixpoint insert_sorted {A} (cmp : A -> A -> Number) (x : A) (l : list A)
  : list A :=
  match l with
  | [] => [x]
  | y :: ys =>
      if sort_le cmp x y then x :: y :: ys
      else y :: insert_sorted cmp x ys
  end.

Fixpoint array_sort {A} (cmp : A -> A -> Number) (l : list A) : list A :=
  match l with
  | [] => []
  | x :: xs => insert_sorted cmp x (array_sort cmp xs)
  end.

(** [[...indicators].sort(...)] *)
Definition sortedIndicators (st : State) (indicators : list ThreatIndicator)
  : list ThreatIndicator :=
  array_sort (compareFn (sortField st) (sortDirection st)) indicators.

Definition getScoreColor (score : Z) : string :=
  if 80 <=? score then "text-destructive"
  else if 60 <=? score then "text-orange-400"
  else if 40 <=? score then "text-warning"
  else if 20 <=? score then "text-primary"
  else "text-accent".

(** The class chosen for the score bar of a row. *)
Definition scoreBarColor (indicator : ThreatIndicator) : string :=
  if 80 <=? score indicator then "bg-destructive"
  else if 60 <=? score indicator then "bg-orange-500"
  else if 40 <=? score indicator then "bg-warning"
  else if 20 <=? score indicator then "bg-primary"
  else "bg-accent".

(** The order a list sorted "by score descending, id as tiebreaker"
    puts between a row and every later row. *)
Definition score_then_id (a b : ThreatIndicator) : Prop :=
  score b < score a \/ (score a = score b /\ String.leb (id a) (id b) = true).

(** [toggleRowExpansion]: the updater given to [setExpandedRows]
    copies the previous set and deletes or adds [id]. *)
Definition toggleRowExpansion (id : string) (st : State) : State :=
  let prev := expandedRows st in
  let newSet := prev in
  let newSet :=
    if bool_decide (id ∈ newSet) then newSet ∖ {[ id ]}
    else newSet ∪ {[ id ]} in
  {| sortField := sortField st; sortDirection := sortDirection st;
     copiedId := copiedId st; expandedRows := newSet |}.

End ThreatTable.

(** ** [ThreatLevelChart] *)

Module ThreatLevelChart.
Import Threat.

(** An integer counter as the JavaScript number it is (exact below
    2^53). *)
Definition to_number (z : Z) : float :=
  match z with
  | Z0 => 0%float
  | Zpos _ => PrimFloat.of_uint63 (Uint63.of_Z z)
  | Zneg p => (- PrimFloat.of_uint63 (Uint63.of_Z (Zpos p)))%float
  end.

Record Level := {
  label : string;
  count : Z;
  color : string;
  percentage : float;
}.

(** [(count / total) * 100] in binary64 arithmetic. *)
Definition percent (count total : Z) : float :=
  ((to_number count / to_number total) * 100)%float.

Definition levels (stats : ThreatStats) : list Level :=
  let total := totalIndicators stats in
  [ {| label := "Critical"; count := criticalCount stats;
       color := "bg-destructive";
       percentage := percent (criticalCount stats) total |};
    {| label := "High"; count := highCount stats;
       color := "bg-orange-500";
       percentage := percent (highCount stats) total |};
    {| label := "Medium"; count := mediumCount stats;
       color := "bg-warning";
       percentage := percent (mediumCount stats) total |};
    {| label := "Low"; count := lowCount stats;
       color := "bg-primary";
       percentage := percent (lowCount stats) total |};
    {| label := "Info"; count := infoCount stats;
       color := "bg-accent";
       percentage := percent (infoCount stats) total |} ].






End ThreatLevelChart.

(** ** [FeedStatus] *)

Module FeedStatus.
Import Js Api.

(** The text of the IOC counter of one feed card:
    [(feed.indicatorCount || 0).toLocaleString()] followed by
    [" IOCs"]. *)
Definition iocCount `{Platform} (feed : Value) : Error + string :=
  let? indicatorCount := feed.["indicatorCount"] in
  let? text := toLocaleString (Js.or indicatorCount (Num 0)) in
  inr (text +:+ " IOCs").

End FeedStatus.

(** ** The aggregation engine

    The engine's code is not among the source files.  Everything in
    this module is modelled from the specification of the engine: the
    data model (section 3), the merge engine (4.3), the scorer (4.4),
    the correlator (4.5), the store (4.6) and the statistics
    aggregator (4.8). *)

Module Engine.

(** Modelled from the spec: the stable opaque identifier of an
    indicator; the engine's source is missing, identifiers are taken
    to be minted from a counter. *)
Definition Id := N.

(** Modelled from the spec: the normalized draft the Normalizer hands
    to the Merge Engine (4.2): detected type, normalized value, the
    reporting feed, the observation timestamp, tags and an optional
    description. *)
Record Draft := {
  d_type : Threat.IOCType;
  d_value : string;
  d_source : string;
  d_timestamp : Z;
  d_tags : list string;
  d_description : option string;
}.

(** Modelled from the spec: the canonical record of section 3;
    [createdAt] is the first [firstSeen] ever recorded, which the
    statistics read (4.8). *)
Record Indicator := {
  id : Id;
  value : string;
  type : Threat.IOCType;
  threatLevel : Threat.ThreatLevel;
  score : Z;
  sources : list string;
  firstSeen : Z;
  lastSeen : Z;
  tags : list string;
  description : option string;
  correlations : list Id;
  createdAt : Z;
}.

(** Modelled from the spec: the status of a feed (section 3). *)
Inductive FeedState := active | inactive | error.

(** Modelled from the spec: the part of the feed metadata the
    statistics read. *)
Record Feed := {
  f_name : string;
  f_status : FeedState;
}.

(** Modelled from the spec: the store (4.6), the live records in
    insertion order, the next identifier to mint and the feed
    table. *)
Record Store := {
  indicators : list Indicator;
  next_id : Id;
  feeds : list Feed;
}.

Definition empty (fs : list Feed) : Store :=
  {| indicators := []; next_id := 0%N; feeds := fs |}.

(** *** Scorer *)

(** Modelled from the spec: the scoring formula is left to
    configuration (4.4 fixes only what it reads: the reporting
    sources with their reliability, the tags and the recency of
    [lastSeen]). *)
Class Scorer := {
  raw_score : list string -> list string -> Z -> Z;
}.

(** Modelled from the spec: [score(indicator)], an integer kept
    within 0-100. *)
Definition score_of `{Scorer} (srcs tgs : list string) (seen : Z) : Z :=
  Z.max 0 (Z.min 100 (raw_score srcs tgs seen)).

(** Modelled from the spec: the tunable bucket thresholds and their
    documented values. *)
Record Thresholds := {
  t_critical : Z;
  t_high : Z;
  t_medium : Z;
  t_low : Z;
}.

Definition default_thresholds : Thresholds :=
  {| t_critical := 80; t_high := 60; t_medium := 40; t_low := 20 |}.

(** Modelled from the spec: [level(score)], score>=80 critical, >=60
    high, >=40 medium, >=20 low, else info. *)
Definition level_with (th : Thresholds) (s : Z) : Threat.ThreatLevel :=
  if t_critical th <=? s then Threat.critical
  else if t_high th <=? s then Threat.high
  else if t_medium th <=? s then Threat.medium
  else if t_low th <=? s then Threat.low
  else Threat.info.

Definition level : Z -> Threat.ThreatLevel := level_with default_thresholds.

(** Modelled from the spec: score and level are derived fields,
    recomputed from the other fields after every merge. *)
Definition rescore `{Scorer} (i : Indicator) : Indicator :=
  let sc := score_of (sources i) (tags i) (lastSeen i) in
  {| id := id i; value := value i; type := type i;
     threatLevel := level sc; score := sc;
     sources := sources i; firstSeen := firstSeen i;
     lastSeen := lastSeen i; tags := tags i;
     description := description i; correlations := correlations i;
     createdAt := createdAt i |}.

(** *** Merge engine *)

Definition lower_ascii (c : ascii) : ascii :=
  let n := N_of_ascii c in
  if ((65 <=? n) && (n <=? 90))%N then ascii_of_N (n + 32) else c.

Fixpoint lower (s : string) : string :=
  match s with
  | EmptyString => EmptyString
  | String c r => String (lower_ascii c) (lower r)
  end.

(** Modelled from the spec: tags are compared case-insensitively. *)
Definition tag_eqb (t u : string) : bool := String.eqb (lower t) (lower u).

Definition tag_mem (t : string) (ts : list string) : bool :=
  existsb (tag_eqb t) ts.

(** Modelled from the spec: adding a tag keeps the casing of the
    first occurrence. *)
Definition tag_add (ts : list string) (t : string) : list string :=
  if tag_mem t ts then ts else ts ++ [t].

Definition tag_union (ts new : list string) : list string :=
  fold_left tag_add new ts.

(** Modelled from the spec: [sources] is a set shown
    first-seen-source-first. *)
Definition source_add (ss : list string) (s : string) : list string :=
  if existsb (String.eqb s) ss then ss else ss ++ [s].

Definition non_empty (o : option string) : bool :=
  match o with
  | Some s => negb (String.eqb s "")
  | None => false
  end.

(** Modelled from the spec: the natural key [(type, value)]. *)
Definition key (i : Indicator) : Threat.IOCType * string := (type i, value i).

Definition has_key (k : Threat.IOCType * string) (i : Indicator) : bool :=
  bool_decide (key i = k).

Definition lookup (k : Threat.IOCType * string) (s : Store)
  : option Indicator :=
  List.find (has_key k) (indicators s).

(** Modelled from the spec: a new indicator copies the draft's
    fields, with [sources = {draft.source}]. *)
Definition create `{Scorer} (new_id : Id) (d : Draft) : Indicator :=
  rescore
    {| id := new_id; value := d_value d; type := d_type d;
       threatLevel := Threat.info; score := 0;
       sources := [d_source d];
       firstSeen := d_timestamp d; lastSeen := d_timestamp d;
       tags := d_tags d; description := d_description d;
       correlations := []; createdAt := d_timestamp d |}.

(** Modelled from the spec: merging into an existing record unions
    sources and tags, takes the min and max of the timestamps and
    replaces the description only by a non-empty one. *)
Definition absorb `{Scorer} (e : Indicator) (d : Draft) : Indicator :=
  rescore
    {| id := id e; value := value e; type := type e;
       threatLevel := threatLevel e; score := score e;
       sources := source_add (sources e) (d_source d);
       firstSeen := Z.min (firstSeen e) (d_timestamp d);
       lastSeen := Z.max (lastSeen e) (d_timestamp d);
       tags := tag_union (tags e) (d_tags d);
       description :=
         if non_empty (d_description d) then d_description d
         else description e;
       correlations := correlations e; createdAt := createdAt e |}.

(** Modelled from the spec:
    [merge(draft, storeSnapshot) -> (updatedIndicator, isNew)]. *)
Definition merge `{Scorer} (d : Draft) (s : Store) : Indicator * bool :=
  match lookup (d_type d, d_value d) s with
  | None => (create (next_id s) d, true)
  | Some e => (absorb e d, false)
  end.

(** Modelled from the spec: [upsert(indicator)] replaces the record
    stored under the indicator's key, or appends it. *)
Definition upsert (i : Indicator) (l : list Indicator) : list Indicator :=
  if existsb (has_key (key i)) l
  then map (fun e => if has_key (key i) e then i else e) l
  else l ++ [i].

(** Modelled from the spec: one draft through the merge engine into
    the store. *)
Definition ingest `{Scorer} (d : Draft) (s : Store) : Store :=
  let '(i, isNew) := merge d s in
  {| indicators := upsert i (indicators s);
     next_id := if isNew then (next_id s + 1)%N else next_id s;
     feeds := feeds s |}.

(** *** Correlator *)

Fixpoint drop_prefix (p s : string) : option string :=
  match p, s with
  | EmptyString, _ => Some s
  | String a p', String b s' =>
      if Ascii.eqb a b then drop_prefix p' s' else None
  | String _ _, EmptyString => None
  end.

Definition after_scheme (u : string) : string :=
  match drop_prefix "http://" u with
  | Some r => r
  | None =>
      match drop_prefix "https://" u with
      | Some r => r
      | None => u
      end
  end.

Definition ends_host (c : ascii) : bool :=
  Ascii.eqb c "/" || Ascii.eqb c "?" || Ascii.eqb c "#" || Ascii.eqb c ":".

Fixpoint take_host (s : string) : string :=
  match s with
  | EmptyString => EmptyString
  | String c r => if ends_host c then EmptyString else String c (take_host r)
  end.

(** Modelled from the spec: the hostname component of a URL, what
    stands between the scheme and the first of [/ ? # :]. *)
Definition hostname (u : string) : string := take_host (after_scheme u).

(** Modelled from the spec: rule (a), a [url] indicator whose
    hostname equals the value of a [domain] indicator. *)
Definition rule_host (a b : Indicator) : bool :=
  bool_decide (type a = Threat.url) && bool_decide (type b = Threat.domain)
  && String.eqb (hostname (value a)) (value b).

Definition shared_tags (a b : Indicator) : list string :=
  List.filter (fun t => tag_mem t (tags b)) (tags a).

(** Modelled from the spec: rule (b), two indicators sharing at least
    two tags. *)
Definition rule_tags (a b : Indicator) : bool :=
  (2 <=? length (shared_tags a b))%nat.

(** Modelled from the spec: which tags a connector uses to state that
    a domain resolves to an address is left to the connector. *)
Class Resolver := {
  resolves : Indicator -> Indicator -> bool;
}.

(** Modelled from the spec: rule (c), a [domain]/[ip] pair linked by
    a resolution tag. *)
Definition rule_resolution `{Resolver} (a b : Indicator) : bool :=
  bool_decide (type a = Threat.domain) && bool_decide (type b = Threat.ip)
  && resolves a b.

Definition related `{Resolver} (a b : Indicator) : bool :=
  rule_host a b || rule_tags a b || rule_resolution a b.

(** Modelled from the spec: the side structure of a correlation
    pass, every discovered pair of two different indicators. *)
Definition discovered `{Resolver} (l : list Indicator) : list (Id * Id) :=
  flat_map (fun a =>
    flat_map (fun b =>
      if negb (N.eqb (id a) (id b)) && related a b
      then [(id a, id b)] else []) l) l.

Definition set_correlations (c : list Id) (i : Indicator) : Indicator :=
  {| id := id i; value := value i; type := type i;
     threatLevel := threatLevel i; score := score i;
     sources := sources i; firstSeen := firstSeen i;
     lastSeen := lastSeen i; tags := tags i;
     description := description i; correlations := c;
     createdAt := createdAt i |}.

(** Modelled from the spec: adding an existing link is a no-op. *)
Definition add_correlation (x : Id) (i : Indicator) : Indicator :=
  if existsb (N.eqb x) (correlations i) then i
  else set_correlations (correlations i ++ [x]) i.

(** Modelled from the spec: for a discovered pair, each identifier is
    added to the other's set. *)
Definition link (i : Indicator) (p : Id * Id) : Indicator :=
  if N.eqb (id i) (fst p) then add_correlation (snd p) i
  else if N.eqb (id i) (snd p) then add_correlation (fst p) i
  else i.

Definition apply_links (ps : list (Id * Id)) (i : Indicator) : Indicator :=
  fold_left link ps (set_correlations [] i).

(** Modelled from the spec: a correlation pass recomputes all links
    from scratch and applies them to the current records. *)
Definition correlate `{Resolver} (s : Store) : Store :=
  {| indicators := map (apply_links (discovered (indicators s))) (indicators s);
     next_id := next_id s;
     feeds := feeds s |}.

(** Modelled from the spec: feed bookkeeping at the end of a cycle
    touches the feed table only. *)
Definition set_feeds (fs : list Feed) (s : Store) : Store :=
  {| indicators := indicators s; next_id := next_id s; feeds := fs |}.

(** Modelled from the spec: the store states the engine can be in,
    from the empty store by merges, correlation passes and feed
    bookkeeping. *)
Inductive reachable `{Scorer} `{Resolver} : Store -> Prop :=
  | reach_empty fs : reachable (empty fs)
  | reach_ingest d s : reachable s -> reachable (ingest d s)
  | reach_correlate s : reachable s -> reachable (correlate s)
  | reach_feeds fs s : reachable s -> reachable (set_feeds fs s).




(** *** Statistics aggregator *)




End Engine.


(** ** A host

    One concrete host environment, used to run the client on sample
    data: the time zone is UTC and the locale is en-US. *)

Module Host.
Import Js.

(** *** Calendar *)

(** Days from 1970-01-01 to the civil date [y-m-d]. *)
Definition days_from_civil (y m d : Z) : Z :=
  let y' := if m <=? 2 then y - 1 else y in
  let era := y' / 400 in
  let yoe := y' - era * 400 in
  let mp := (m + 9) mod 12 in
  let doy := (153 * mp + 2) / 5 + d - 1 in
  let doe := yoe * 365 + yoe / 4 - yoe / 100 + doy in
  era * 146097 + doe - 719468.

(** The civil date [(y, m, d)] of a day number. *)
Definition civil_from_days (z : Z) : Z * Z * Z :=
  let z' := z + 719468 in
  let era := z' / 146097 in
  let doe := z' - era * 146097 in
  let yoe := (doe - doe / 1460 + doe / 36524 - doe / 146096) / 365 in
  let doy := doe - (365 * yoe + yoe / 4 - yoe / 100) in
  let mp := (5 * doy + 2) / 153 in
  let d := doy - (153 * mp + 2) / 5 + 1 in
  let m := if mp <? 10 then mp + 3 else mp - 9 in
  let y := yoe + era * 400 in
  (if m <=? 2 then y + 1 else y, m, d).

Definition is_leap (y : Z) : bool :=
  ((y mod 4 =? 0) && negb (y mod 100 =? 0)) || (y mod 400 =? 0).

Definition days_in_month (y m : Z) : Z :=
  if m =? 2 then (if is_leap y then 29 else 28)
  else if (m =? 4) || (m =? 6) || (m =? 9) || (m =? 11) then 30
  else 31.

(** *** Reading a date-time string *)

Definition digit (c : ascii) : option Z :=
  let n := Z.of_N (N_of_ascii c) in
  if (48 <=? n) && (n <=? 57) then Some (n - 48) else None.

(** Exactly [n] decimal digits. *)
Fixpoint digits (n : nat) (acc : Z) (s : string) : option (Z * string) :=
  match n with
  | O => Some (acc, s)
  | S n' =>
      match s with
      | String c r =>
          match digit c with
          | Some v => digits n' (10 * acc + v) r
          | None => None
          end
      | EmptyString => None
      end
  end.

Definition expect (c : ascii) (s : string) : option string :=
  match s with
  | String c' r => if Ascii.eqb c c' then Some r else None
  | EmptyString => None
  end.

(** A fraction of a second: the first three digits count, as
    milliseconds. *)
Fixpoint fraction (place : Z) (acc : Z) (s : string) : Z * string :=
  match s with
  | String c r =>
      match digit c with
      | Some v => fraction (place / 10) (acc + place * v) r
      | None => (acc, s)
      end
  | EmptyString => (acc, s)
  end.

(** [YYYY-MM-DD], or [YYYY-MM-DDTHH:mm:ss] with an optional fraction
    and an optional [Z]; the time is read as UTC.  Anything else is
    not a date for this host. *)
Definition parse_iso (s : string) : option Z :=
  '(y, s) ← digits 4 0 s;
  s ← expect "-" s;
  '(m, s) ← digits 2 0 s;
  s ← expect "-" s;
  '(d, s) ← digits 2 0 s;
  if negb ((1 <=? m) && (m <=? 12) && (1 <=? d) && (d <=? days_in_month y m))
  then None
  else
    let day := days_from_civil y m d * 86400000 in
    match s with
    | EmptyString => Some day
    | _ =>
        s ← expect "T" s;
        '(h, s) ← digits 2 0 s;
        s ← expect ":" s;
        '(mi, s) ← digits 2 0 s;
        s ← expect ":" s;
        '(sec, s) ← digits 2 0 s;
        let '(ms, s) :=
          match expect "." s with
          | Some r => fraction 100 0 r
          | None => (0, s)
          end in
        if negb ((h <=? 23) && (mi <=? 59) && (sec <=? 59)) then None
        else
          let t := day + ((h * 60 + mi) * 60 + sec) * 1000 + ms in
          match s with
          | EmptyString | String "Z" EmptyString => Some t
          | _ => None
          end
    end.

(** The integer part of a finite number. *)
Definition truncate (f : float) : option Z :=
  match Prim2SF f with
  | S754_zero _ => Some 0
  | S754_finite s m e =>
      let a := if 0 <=? e then Zpos m * 2 ^ e else Zpos m / 2 ^ (- e) in
      Some (if s then - a else a)
  | S754_infinity _ | S754_nan => None
  end.

(** [new Date(v)] for what the wire can carry: a string is parsed, a
    number is a time value (within the range of [Date]), [null] is
    the epoch. *)
Definition host_date_time (v : Value) : option Z :=
  match v with
  | Str s => parse_iso s
  | Num f =>
      match truncate f with
      | Some t => if Z.abs t <=? 8640000000000000 then Some t else None
      | None => None
      end
  | Null => Some 0
  | Bool b => Some (if b then 1 else 0)
  | Undefined | Arr _ | Obj _ => None
  | DateV t => t
  end.

(** *** Printing under en-US *)

(** Decimal digits in groups of three. *)
Fixpoint group_from_right (rev_digits : list ascii) (n : nat) : list ascii :=
  match rev_digits with
  | [] => []
  | c :: r =>
      match n with
      | 3%nat => "," % char :: c :: group_from_right r 1
      | _ => c :: group_from_right r (S n)
      end
  end.

Definition grouped (n : Z) : string :=
  String.string_of_list_ascii
    (rev (group_from_right (rev (String.list_ascii_of_string (pretty n))) 0)).

Definition pad (width : nat) (n : Z) : string :=
  let s := pretty n in
  String.string_of_list_ascii (replicate (width - String.length s) "0" % char) +:+ s.

Fixpoint strip_zeros (rev_digits : list ascii) : list ascii :=
  match rev_digits with
  | "0" % char :: r => strip_zeros r
  | _ => rev_digits
  end.

(** A finite number in thousandths, rounded half away from zero. *)
Definition thousandths (m : positive) (e : Z) : Z :=
  if 0 <=? e then Zpos m * 2 ^ e * 1000
  else (Zpos m * 2000 + 2 ^ (- e)) / (2 * 2 ^ (- e)).

(** [n.toLocaleString()]: grouped integer part, at most three
    fraction digits. *)
Definition host_number (f : float) : string :=
  match Prim2SF f with
  | S754_nan => "NaN"
  | S754_infinity s => if s then "-∞" else "∞"
  | S754_zero s => if s then "-0" else "0"
  | S754_finite s m e =>
      let v := thousandths m e in
      let frac :=
        String.string_of_list_ascii
          (rev (strip_zeros (rev (String.list_ascii_of_string (pad 3 (v mod 1000)))))) in
      (if s then "-" else "") +:+ grouped (v / 1000)
      +:+ (if String.eqb frac "" then "" else "." +:+ frac)
  end.

(** [date.toLocaleString()]: [M/D/YYYY, h:mm:ss AM]. *)
Definition host_date (t : option Z) : string :=
  match t with
  | None => "Invalid Date"
  | Some t =>
      let '(y, m, d) := civil_from_days (t / 86400000) in
      let secs := (t mod 86400000) / 1000 in
      let h := secs / 3600 in
      let h12 := if h mod 12 =? 0 then 12 else h mod 12 in
      pretty m +:+ "/" +:+ pretty d +:+ "/" +:+ pretty y +:+ ", "
      +:+ pretty h12 +:+ ":" +:+ pad 2 (secs / 60 mod 60) +:+ ":"
      +:+ pad 2 (secs mod 60) +:+ (if h <? 12 then " AM" else " PM")
  end.

#[export] Instance utc_en_US : Platform := {|
  date_time := host_date_time;
  number_toLocaleString := host_number;
  date_toLocaleString := host_date;
|}.

End Host.

(** ** Sample data *)

Module Sample.

Definition mentions (words tgs : list string) : bool :=
  existsb (fun t => Engine.tag_mem t words) tgs.

(** A scorer in the shape section 4.4 describes: 25 points per
    reporting source, 20 more for a high-severity tag, 10 fewer for a
    low-severity one. *)
#[export] Instance scorer : Engine.Scorer := {|
  Engine.raw_score srcs tgs _ :=
    25 * Z.of_nat (length srcs)
    + (if mentions ["malware"; "c2"; "ransomware"] tgs then 20 else 0)
    - (if mentions ["tor-exit"; "scanner"] tgs then 10 else 0)
|}.

(** Connectors that supply no resolution tags. *)
#[export] Instance no_resolution : Engine.Resolver := {|
  Engine.resolves _ _ := false
|}.

(** The observations of the scenarios of section 8. *)
Definition otx_scanner : Engine.Draft :=
  {| Engine.d_type := Threat.ip; Engine.d_value := "1.2.3.4";
     Engine.d_source := "OTX-mock"; Engine.d_timestamp := 1705314600000;
     Engine.d_tags := ["scanner"]; Engine.d_description := None |}.

Definition mockb_c2 : Engine.Draft :=
  {| Engine.d_type := Threat.ip; Engine.d_value := "1.2.3.4";
     Engine.d_source := "Mock-B"; Engine.d_timestamp := 1705318200000;
     Engine.d_tags := ["c2"]; Engine.d_description := Some "C2 node" |}.

Definition evil_domain : Engine.Draft :=
  {| Engine.d_type := Threat.domain; Engine.d_value := "evil.example";
     Engine.d_source := "OTX-mock"; Engine.d_timestamp := 1705314600000;
     Engine.d_tags := ["phishing"]; Engine.d_description := None |}.

Definition evil_url : Engine.Draft :=
  {| Engine.d_type := Threat.url; Engine.d_value := "http://evil.example/x";
     Engine.d_source := "Mock-B"; Engine.d_timestamp := 1705318200000;
     Engine.d_tags := []; Engine.d_description := None |}.

(** The four observations merged, before and after a correlation
    pass. *)
Definition merged : Engine.Store :=
  Engine.ingest evil_url
    (Engine.ingest evil_domain
       (Engine.ingest mockb_c2
          (Engine.ingest otx_scanner (Engine.empty [])))).

Definition store : Engine.Store := Engine.correlate merged.




(** A table row with a given id and score. *)
Definition row (id : string) (score : Z) : Threat.ThreatIndicator :=
  {| Threat.id := id; Threat.value := "198.51.100.7"; Threat.type := Threat.ip;
     Threat.threatLevel := Engine.level score; Threat.score := score;
     Threat.sources := ["OTX-mock"];
     Threat.firstSeen := Some 1705314600000;
     Threat.lastSeen := Some 1705314600000;
     Threat.tags := []; Threat.description := None;
     Threat.correlations := None |}.


(** A feed as the wire carries it, without [indicator_count]. *)
Definition feed_without_count : gmap string Js.Value :=
  list_to_map [
    ("id", Js.Str "otx"); ("name", Js.Str "AlienVault OTX");
    ("description", Js.Str "Community feed");
    ("url", Js.Str "https://otx.alienvault.com");
    ("last_updated", Js.Str "2024-01-15T10:30:00");
    ("status", Js.Str "active"); ("reliability", Js.Num 4) ].

(** An indicator as the wire carries it. *)
Definition wire_indicator : gmap string Js.Value :=
  list_to_map [
    ("id", Js.Str "ioc-1"); ("value", Js.Str "1.2.3.4");
    ("type", Js.Str "ip"); ("threat_level", Js.Str "high");
    ("score", Js.Num 60);
    ("sources", Js.Arr [Js.Str "OTX-mock"; Js.Str "Mock-B"]);
    ("first_seen", Js.Str "2024-01-15T10:30:00");
    ("last_seen", Js.Str "2024-01-15T11:30:00");
    ("tags", Js.Arr [Js.Str "scanner"; Js.Str "c2"]);
    ("description", Js.Str "C2 node") ].

Definition not_found : Api.Response :=
  {| Api.ok := false; Api.status := 404; Api.statusText := "Not Found";
     Api.json := inr (Js.object [("detail", Js.Str "Indicator not found")]) |}.

(** A backend on the default address that knows one feed and one
    indicator. *)
Definition backend (url : string) (init : Api.RequestInit) : Api.FetchOutcome :=
  if String.eqb url "http://localhost:8000/api/v1/feeds"
  then Api.ok_response (Js.Arr [Js.Obj feed_without_count])
  else if String.eqb url "http://localhost:8000/api/v1/indicators?limit=1000"
  then Api.ok_response (Js.Arr [Js.Obj wire_indicator])
  else if String.eqb url "http://localhost:8000/api/v1/indicators/ioc-1"
  then Api.ok_response (Js.Obj wire_indicator)
  else Api.Resolved not_found.

#[export] Instance local : Api.Environment := {|
  Api.VITE_API_URL := None;
  Api.fetch := backend
|}.

(** The parameters [Index] passes when no filter is set. *)
Definition first_page : Api.IndicatorParams :=
  {| Api.search := None; Api.types := None; Api.levels := None;
     Api.sources := None; Api.limit := Some 1000; Api.offset := None |}.

End Sample.

(** ** [SearchFilter] *)

Module SearchFilter.
Import Threat.

Definition iocTypes : list IOCType := [ip; domain; hash; url; email].
Definition threatLevels : list ThreatLevel :=
  [critical; high; medium; low; info].

(** [toggleType]: what it hands to [onTypeFilter]. *)
Definition toggleType (selectedTypes : list IOCType) (type : IOCType)
  : list IOCType :=
  if bool_decide (type ∈ selectedTypes)
  then filter (fun t => t ≠ type) selectedTypes
  else selectedTypes ++ [type].

(** [toggleLevel]: what it hands to [onLevelFilter]. *)
Definition toggleLevel (selectedLevels : list ThreatLevel) (level : ThreatLevel)
  : list ThreatLevel :=
  if bool_decide (level ∈ selectedLevels)
  then filter (fun l => l ≠ level) selectedLevels
  else selectedLevels ++ [level].

(** The two selections the component receives as props and replaces
    through its callbacks. *)
Record Selection := {
  selectedTypes : list IOCType;
  selectedLevels : list ThreatLevel;
}.

Definition clearFilters (sel : Selection) : Selection :=
  {| selectedTypes := []; selectedLevels := [] |}.

Definition hasActiveFilters (sel : Selection) : bool :=
  (0 <? length (selectedTypes sel))%nat || (0 <? length (selectedLevels sel))%nat.

(** The number in the badge of the filter button. *)
Definition activeCount (sel : Selection) : nat :=
  (length (selectedTypes sel) + length (selectedLevels sel))%nat.

(** What a user can do to the selection. *)
Inductive Action :=
  | ClickType (type : IOCType)
  | ClickLevel (level : ThreatLevel)
  | ClickClear.

Definition act (sel : Selection) (a : Action) : Selection :=
  match a with
  | ClickType type =>
      {| selectedTypes := toggleType (selectedTypes sel) type;
         selectedLevels := selectedLevels sel |}
  | ClickLevel level =>
      {| selectedTypes := selectedTypes sel;
         selectedLevels := toggleLevel (selectedLevels sel) level |}
  | ClickClear => clearFilters sel
  end.

(** The selection [Index] starts with. *)
Definition none : Selection := {| selectedTypes := []; selectedLevels := [] |}.

End SearchFilter.

(** ** The cells of a [ThreatTable] row *)

Module ThreatRow.
Import Threat ThreatTable.

(** What a cell holds: chips of text and buttons. *)
Inductive Item :=
  | Chip (text : string)
  | Button (label : string).

Definition chips (cell : list Item) : list string :=
  omap (fun it => match it with Chip t => Some t | Button _ => None end) cell.

Definition buttons (cell : list Item) : list string :=
  omap (fun it => match it with Button l => Some l | Chip _ => None end) cell.

(** The tags cell: all tags when the row is expanded, else the first
    two and a [+N] button; a [Show less] button when expanded.  The
    buttons are there only for more than two tags, and both call
    [toggleRowExpansion] with the id of the row. *)
Definition tagsCell (st : State) (indicator : ThreatIndicator) : list Item :=
  let expanded := bool_decide (id indicator ∈ expandedRows st) in
  (if expanded then
     map Chip (tags indicator)
   else
     map Chip (take 2 (tags indicator))
     ++ (if (2 <? length (tags indicator))%nat
         then [Button ("+" +:+ pretty (length (tags indicator) - 2)%nat)]
         else []))
  ++ (if expanded && (2 <? length (tags indicator))%nat
      then [Button "Show less"] else []).

(** [source.split(' ')[0]] *)
Fixpoint first_word (s : string) : string :=
  match s with
  | EmptyString => EmptyString
  | String c r => if Ascii.eqb c " " then EmptyString else String c (first_word r)
  end.

(** The sources cell: the first word of the first two sources, and
    [+N] for the rest. *)
Definition sourcesCell (indicator : ThreatIndicator) : list Item :=
  map (fun source => Chip (first_word source)) (take 2 (sources indicator))
  ++ (if (2 <? length (sources indicator))%nat
      then [Chip ("+" +:+ pretty (length (sources indicator) - 2)%nat)]
      else []).

(** [SortIcon]: nothing, or the chevron of the direction. *)
Inductive Icon := ChevronUp | ChevronDown.

Definition SortIcon (st : State) (field : SortField) : option Icon :=
  if decide (sortField st = field) then
    match sortDirection st with
    | asc => Some ChevronUp
    | desc => Some ChevronDown
    end
  else None.

(** The place of a type name in the alphabet. *)
Definition type_rank (t : IOCType) : Z :=
  match t with
  | domain => 0 | email => 1 | hash => 2 | ip => 3 | url => 4
  end.

(** The number the comparator of a sort field goes by; an invalid
    date has none. *)
Definition sort_key (field : SortField) (r : ThreatIndicator) : option Z :=
  match field with
  | by_score => Some (score r)
  | by_lastSeen => lastSeen r
  | by_type => Some (type_rank (type r))
  | by_threatLevel => Some (levelOrder (threatLevel r))
  end.

(** The order of two keys in a direction. *)
Definition in_order (direction : SortDirection) (a b : option Z) : Prop :=
  match a, b with
  | Some x, Some y =>
      match direction with asc => x <= y | desc => y <= x end
  | _, _ => True
  end.

End ThreatRow.

(** ** The cards of [FeedStatus] *)

Module FeedCard.
Import Js Api.

(** The five stars of a card, filled ([true]) where the index is
    below [feed.reliability], the number the interface declares. *)
Definition stars (reliability : Z) : list bool :=
  map (fun i => i <? reliability) [0; 1; 2; 3; 4].

(** [formatDistanceToNow] of date-fns, for a valid date. *)
Class DateFns := {
  formatDistanceToNow : Z -> string;
}.

(** [feed.lastUpdated && !isNaN(feed.lastUpdated.getTime())
    ? formatDistanceToNow(feed.lastUpdated, ...) : 'Unknown']; only a
    [Date] has [getTime]. *)
Definition lastUpdatedText `{DateFns} (feed : Value) : Error + string :=
  let? lastUpdated := feed.["lastUpdated"] in
  if to_boolean lastUpdated then
    match lastUpdated with
    | DateV (Some t) => inr (formatDistanceToNow t)
    | DateV None => inr "Unknown"
    | _ => inl TypeError
    end
  else inr "Unknown".

End FeedCard.

(** ** [ExportButton] *)

Module ExportButton.
Import Threat.

(** [date.toISOString()]: [None] stands for the [RangeError] an
    invalid date raises. *)
Definition toISOString (d : option Z) : option string :=
  match d with
  | None => None
  | Some t =>
      let '(y, m, day) := Host.civil_from_days (t / 86400000) in
      let ms := t mod 86400000 in
      let year :=
        if (0 <=? y) && (y <=? 9999) then Host.pad 4 y
        else (if y <? 0 then "-" else "+") +:+ Host.pad 6 (Z.abs y) in
      Some (year +:+ "-" +:+ Host.pad 2 m +:+ "-" +:+ Host.pad 2 day
            +:+ "T" +:+ Host.pad 2 (ms / 3600000)
            +:+ ":" +:+ Host.pad 2 (ms / 60000 mod 60)
            +:+ ":" +:+ Host.pad 2 (ms / 1000 mod 60)
            +:+ "." +:+ Host.pad 3 (ms mod 1000) +:+ "Z")
  end.

(** One element of [exportData.indicators]; the [id] is not
    exported. *)
Record Exported := {
  value : string;
  type : IOCType;
  threatLevel : ThreatLevel;
  score : Z;
  sources : list string;
  firstSeen : string;
  lastSeen : string;
  tags : list string;
  description : option string;
  correlations : option (list string);
}.

Record ExportData := {
  exportedAt : string;
  totalIndicators : nat;
  indicators : list Exported;
}.

Definition exportOne (i : ThreatIndicator) : option Exported :=
  first ← toISOString (Threat.firstSeen i);
  last ← toISOString (Threat.lastSeen i);
  Some {| value := Threat.value i; type := Threat.type i;
          threatLevel := Threat.threatLevel i; score := Threat.score i;
          sources := Threat.sources i;
          firstSeen := first; lastSeen := last;
          tags := Threat.tags i; description := Threat.description i;
          correlations := Threat.correlations i |}.

(** The object [exportToJson] serializes, built at time [now]. *)
Definition exportData (now : Z) (rows : list ThreatIndicator)
  : option ExportData :=
  at_ ← toISOString (Some now);
  exported ← mapM exportOne rows;
  Some {| exportedAt := at_; totalIndicators := length rows;
          indicators := exported |}.

(** [s.split('T')[0]] *)
Fixpoint before_T (s : string) : string :=
  match s with
  | EmptyString => EmptyString
  | String c r => if Ascii.eqb c "T" then EmptyString else String c (before_T r)
  end.

(** The component: its one state cell, and whether the timer that
    ends an export is pending. *)
Record State := {
  isExporting : bool;
  timerPending : bool;
}.

Definition idle : State := {| isExporting := false; timerPending := false |}.

(** What a click leaves behind besides the state: the file offered
    for download, if the handler got that far. *)
Record Download := {
  filename : string;
  content : ExportData;
}.

(** [exportToJson], with the clock read at [now] for [exportedAt]
    and at [later] for the file name: the state is set to exporting
    first; when a date cannot be serialized the handler stops
    there. *)
Definition exportToJson (now later : Z) (rows : list ThreatIndicator)
    (st : State) : State * option Download :=
  match exportData now rows with
  | None => ({| isExporting := true; timerPending := timerPending st |}, None)
  | Some data =>
      ({| isExporting := true; timerPending := true |},
       Some {| filename := "threat-intel-export-"
                           +:+ before_T (default "" (toISOString (Some later)))
                           +:+ ".json";
               content := data |})
  end.

(** The callback of [setTimeout(..., 500)]. *)
Definition timeout (st : State) : State :=
  if timerPending st then {| isExporting := false; timerPending := false |}
  else st.

Definition disabled (rows : list ThreatIndicator) (st : State) : bool :=
  isExporting st || (length rows =? 0)%nat.

(** Clicks reach the handler only while the button is enabled. *)
Inductive Event := Click (now later : Z) | Timeout.

Definition step (rows : list ThreatIndicator) (st : State) (e : Event) : State :=
  match e with
  | Click now later =>
      if disabled rows st then st else fst (exportToJson now later rows st)
  | Timeout => timeout st
  end.

End ExportButton.

(** ** [pages/Index.tsx] *)

Module Index.
Import Js Api.

Record State := {
  searchQuery : string;
  selection : SearchFilter.Selection;
  indicators : Value;
  feeds : Value;
  stats : Value;
  loading : bool;
  error : option string;
}.

Definition zero_stats : Value :=
  object [
    ("totalIndicators", Num 0); ("criticalCount", Num 0);
    ("highCount", Num 0); ("mediumCount", Num 0); ("lowCount", Num 0);
    ("infoCount", Num 0); ("activeFeeds", Num 0);
    ("correlatedIOCs", Num 0); ("last24hNew", Num 0) ].

Definition initial : State :=
  {| searchQuery := ""; selection := SearchFilter.none;
     indicators := Arr []; feeds := Arr []; stats := zero_stats;
     loading := true; error := None |}.

(** The argument [loadData] gives to [fetchIndicators]. *)
Definition params (st : State) : IndicatorParams :=
  {| search := if String.eqb (searchQuery st) "" then None
               else Some (searchQuery st);
     types := if (0 <? length (SearchFilter.selectedTypes (selection st)))%nat
              then Some (SearchFilter.selectedTypes (selection st)) else None;
     levels := if (0 <? length (SearchFilter.selectedLevels (selection st)))%nat
               then Some (SearchFilter.selectedLevels (selection st)) else None;
     sources := None;
     limit := Some 1000;
     offset := None |}.

Definition failure_message : string :=
  "Failed to load threat intelligence data. Please ensure the backend is running.".

(** [Promise.all] of three promises: the three results, or a
    rejection.  When several reject the language passes on the one
    that settles first; the first in order stands for it here. *)
Definition all3 (a b c : Error + Value) : Error + (Value * Value * Value) :=
  match a, b, c with
  | inr x, inr y, inr z => inr (x, y, z)
  | inl e, _, _ => inl e
  | _, inl e, _ => inl e
  | _, _, inl e => inl e
  end.

Section WithEnvironment.
Context `{Platform} `{Environment}.

(** [loadData], from its first line to the end of [finally]: the
    console lines of the three requests, then the new state. *)
Definition loadData (st : State) : Console * State :=
  let '(log_i, r_i) := fetchIndicators (Some (params st)) in
  let '(log_f, r_f) := fetchFeeds in
  let '(log_s, r_s) := fetchStatistics in
  match all3 r_i r_f r_s with
  | inr (indicatorsData, feedsData, statsData) =>
      (log_i ++ log_f ++ log_s,
       {| searchQuery := searchQuery st; selection := selection st;
          indicators := indicatorsData; feeds := feedsData;
          stats := statsData; loading := false; error := None |})
  | inl err =>
      (log_i ++ log_f ++ log_s ++ [("Error loading data:", err)],
       {| searchQuery := searchQuery st; selection := selection st;
          indicators := indicators st; feeds := feeds st;
          stats := stats st; loading := false;
          error := Some failure_message |})
  end.

End WithEnvironment.

(** What the page shows. *)
Inductive View :=
  | Spinner
  | ErrorScreen (message : string)
  | Dashboard.

(** [v.length === 0] *)
Definition is_empty (v : Value) : bool :=
  match v with
  | Arr [] => true
  | Str s => String.eqb s ""
  | _ => false
  end.

Definition view (st : State) : View :=
  if loading st && is_empty (indicators st) then Spinner
  else
    match error st with
    | Some message =>
        if String.eqb message "" then Dashboard else ErrorScreen message
    | None => Dashboard
    end.

End Index.

(** ** The form-urlencoded parser

    The inverse of the serializer behind [URLSearchParams], as a server
    applies it to a query string. *)

Module FormDecode.

(** The characters the serializer can produce: letters, digits and
    [* - . _ + %]. *)
Definition form_safe (c : ascii) : bool :=
  let n := N_of_ascii c in
  ((48 <=? n) && (n <=? 57) || (65 <=? n) && (n <=? 90)
   || (97 <=? n) && (n <=? 122)
   || (n =? 42) || (n =? 45) || (n =? 46) || (n =? 95)
   || (n =? 43) || (n =? 37))%N.

Definition hex_value (c : ascii) : option N :=
  let n := N_of_ascii c in
  if ((48 <=? n) && (n <=? 57))%N then Some (n - 48)%N
  else if ((65 <=? n) && (n <=? 70))%N then Some (n - 55)%N
  else if ((97 <=? n) && (n <=? 102))%N then Some (n - 87)%N
  else None.

(** A [+] is a space, [%XX] is the byte [XX], a [%] that no two hex
    digits follow stands for itself. *)
Fixpoint urldecode (s : string) : string :=
  match s with
  | EmptyString => EmptyString
  | String c r =>
      if Ascii.eqb c "+" then String " " (urldecode r)
      else if Ascii.eqb c "%" then
        match r with
        | String h (String l r') =>
            match hex_value h, hex_value l with
            | Some hi, Some lo =>
                String (ascii_of_N (16 * hi + lo)) (urldecode r')
            | _, _ => String "%" (urldecode r)
            end
        | _ => String "%" (urldecode r)
        end
      else String c (urldecode r)
  end.

(** [s.split(sep)] for a one-character separator. *)
Fixpoint split_on (sep : ascii) (s : string) : list string :=
  match s with
  | EmptyString => [EmptyString]
  | String c r =>
      if Ascii.eqb c sep then EmptyString :: split_on sep r
      else
        match split_on sep r with
        | h :: t => String c h :: t
        | [] => [String c EmptyString]
        end
  end.

(** What stands before and after the first [=]. *)
Fixpoint split_pair (s : string) : string * string :=
  match s with
  | EmptyString => (EmptyString, EmptyString)
  | String c r =>
      if Ascii.eqb c "=" then (EmptyString, r)
      else let '(n, v) := split_pair r in (String c n, v)
  end.

(** A query string back into its name-value pairs. *)
Definition parse_query (q : string) : list (string * string) :=
  if String.eqb q "" then []
  else map (fun p => let '(n, v) := split_pair p in (urldecode n, urldecode v))
           (split_on "&" q).

End FormDecode.

(** ** Reading aids for the statements about [fetchIndicators] *)

Module Params.
Import Api.

Definition blank_string (x : option string) : option string :=
  match x with
  | Some s => if String.eqb s "" then None else Some s
  | None => None
  end.

Definition blank_number (x : option Z) : option Z :=
  match x with
  | Some n => if n =? 0 then None else Some n
  | None => None
  end.

Definition blank_list {A} (x : option (list A)) : option (list A) :=
  match x with
  | Some [] => None
  | _ => x
  end.

(** The parameters with every empty string, zero and empty list
    taken out. *)
Definition without_blanks (p : IndicatorParams) : IndicatorParams :=
  {| search := blank_string (search p);
     types := blank_list (types p);
     levels := blank_list (levels p);
     sources := blank_list (sources p);
     limit := blank_number (limit p);
     offset := blank_number (offset p) |}.

Definition nothing : IndicatorParams :=
  {| search := None; types := None; levels := None; sources := None;
     limit := None; offset := None |}.

End Params.

(** ** More sample data *)

Module Scenario.
Import Js Api.

(** A backend that answers every request with [200 OK] and the body
    [null]. *)
Definition null_response : Response :=
  {| ok := true; status := 200; statusText := "OK"; json := inr Null |}.

Definition null_backend : Environment :=
  {| VITE_API_URL := None; fetch := fun _ _ => Resolved null_response |}.

(** Statistics as the wire carries them. *)
Definition wire_statistics : gmap string Value :=
  list_to_map [
    ("total_indicators", Num 3); ("critical_count", Num 1);
    ("high_count", Num 1); ("medium_count", Num 1);
    ("low_count", Num 0); ("info_count", Num 0);
    ("active_feeds", Num 1); ("correlated_iocs", Num 2);
    ("last_24h_new", Num 3) ].

Definition statistics_response : Response :=
  {| ok := true; status := 200; statusText := "OK";
     json := inr (Obj wire_statistics) |}.

(** The sample backend, with statistics. *)
Definition backend (url : string) (init : RequestInit) : FetchOutcome :=
  if String.eqb url "http://localhost:8000/api/v1/statistics"
  then Resolved statistics_response
  else Sample.backend url init.

Definition full : Environment :=
  {| VITE_API_URL := None; fetch := backend |}.

(** A network that is down. *)
Definition offline : Environment :=
  {| VITE_API_URL := None;
     fetch := fun _ _ => Rejected (NetworkFailure "Failed to fetch") |}.

(** A row whose [lastSeen] could not be read. *)
Definition undated : Threat.ThreatIndicator :=
  {| Threat.id := "ioc-9"; Threat.value := "203.0.113.5";
     Threat.type := Threat.ip; Threat.threatLevel := Threat.low;
     Threat.score := 25; Threat.sources := ["AlienVault OTX"; "Mock-B"; "Mock-C"];
     Threat.firstSeen := Some 1705314600000; Threat.lastSeen := None;
     Threat.tags := ["scanner"; "tor-exit"; "bruteforce"];
     Threat.description := None; Threat.correlations := None |}.

(** A stand-in for date-fns in the samples: the distance in whole
    days, seen from 2024-01-17 00:00 UTC. *)
Definition whole_days : FeedCard.DateFns :=
  {| FeedCard.formatDistanceToNow t :=
       pretty ((1705449600000 - t) / 86400000) +:+ " days ago" |}.

End Scenario.
(** * Properties *)

Import Js Api.

(** ** [apiFetch] and the transformations of [api.ts] *)

Section ApiFacts.
Context `{Platform} `{Environment}.

Lemma apiFetch_ok (endpoint : string) (options : option RequestInit)
    (r : Response) (body : Value) :
  fetch (API_BASE_URL +:+ endpoint) (requestInit options) = Resolved r ->
  ok r = true -> json r = inr body ->
  apiFetch endpoint options = resolve body.
Proof.
  intros Hf Hok Hj. unfold apiFetch, apiFetch_try.
  rewrite Hf, Hok, Hj. reflexivity.
Qed.

Lemma apiFetch_not_ok (endpoint : string) (options : option RequestInit)
    (r : Response) :
  fetch (API_BASE_URL +:+ endpoint) (requestInit options) = Resolved r ->
  ok r = false ->
  let e := ErrorMsg ("API error: " +:+ pretty (status r) +:+ " "
                     +:+ statusText r) in
  apiFetch endpoint options = ([("API request failed:", e)], inl e).
Proof.
  intros Hf Hok. unfold apiFetch, apiFetch_try.
  rewrite Hf, Hok. reflexivity.
Qed.

Lemma apiFetch_resolved_inv (endpoint : string)
    (options : option RequestInit) (log : Console) (v : Value) :
  apiFetch endpoint options = (log, inr v) ->
  exists r,
    fetch (API_BASE_URL +:+ endpoint) (requestInit options) = Resolved r
    /\ ok r = true /\ json r = inr v /\ log = [].
Proof.
  unfold apiFetch, apiFetch_try.
  destruct (fetch _ _) as [e | r]; [discriminate |].
  destruct (ok r) eqn:Hok; simpl; [| discriminate].
  destruct (json r) as [e | b] eqn:Hj; [discriminate |].
  unfold resolve. intros [= <- <-]. exists r. auto.
Qed.

Lemma await_inr_inv {A B} (m : Async A) (k : A -> Async B) log (b : B) :
  await m k = (log, inr b) ->
  exists l1 a l2, m = (l1, inr a) /\ k a = (l2, inr b) /\ log = l1 ++ l2.
Proof.
  destruct m as [l1 [e | a]]; simpl; [discriminate |].
  destruct (k a) as [l2 r] eqn:Hk. intros [= <- ->].
  exists l1, a, l2. auto.
Qed.

Lemma fetchIndicatorById_resolved_inv (id : string) log (v : Value) :
  fetchIndicatorById id = (log, inr v) ->
  exists r body,
    fetch (API_BASE_URL +:+ "/indicators/" +:+ id) (requestInit None)
      = Resolved r
    /\ ok r = true /\ json r = inr body.
Proof.
  unfold fetchIndicatorById. intros Hf.
  apply await_inr_inv in Hf as (l1 & a & l2 & Hapi & _ & _).
  apply apiFetch_resolved_inv in Hapi as (r & Hr & Hok & Hj & _).
  exists r, a. auto.
Qed.

(** Reading a property of an object never throws. *)
Lemma get_Obj (m : gmap string Value) (k : string) :
  (Obj m).[k] = inr (prop m k).
Proof. reflexivity. Qed.

Lemma map_throwing_total (f : Value -> Error + Value) (g : Value -> Value)
    (l : list Value) :
  Forall (fun x => f x = inr (g x)) l ->
  map_throwing f l = inr (map g l).
Proof.
  induction 1 as [| x xs Hx _ IH]; simpl; [reflexivity |].
  rewrite Hx, IH. reflexivity.
Qed.

Lemma array_map_objects (f : Value -> Error + Value) (g : Value -> Value)
    (ms : list (gmap string Value)) :
  (forall m, f (Obj m) = inr (g (Obj m))) ->
  array_map (Arr (Obj <$> ms)) f = inr (Arr (g <$> (Obj <$> ms))).
Proof.
  intros Hf. unfold array_map.
  rewrite (map_throwing_total f g); [reflexivity |].
  apply Forall_fmap, Forall_true. intros m. apply Hf.
Qed.

End ApiFacts.

(** C8: a response that is not OK makes [apiFetch] log and raise an
    error whose message carries the status, and with it
    [fetchIndicatorById] when the request was that of an indicator (the
    not-found case); no record comes back.  [fetchIndicatorById]
    returns a record only when the response was OK and its body
    parsed. *)
Theorem not_ok_response_raises `{Platform} `{Environment}
    (endpoint : string) (options : option RequestInit) (r : Response) :
  fetch (API_BASE_URL +:+ endpoint) (requestInit options) = Resolved r ->
  ok r = false ->
  let e := ErrorMsg ("API error: " +:+ pretty (status r) +:+ " "
                     +:+ statusText r) in
  apiFetch endpoint options = ([("API request failed:", e)], inl e)
  /\ (forall id, endpoint = "/indicators/" +:+ id -> options = None ->
        fetchIndicatorById id = ([("API request failed:", e)], inl e))
  /\ (forall id log v, fetchIndicatorById id = (log, inr v) ->
        exists r' body,
          fetch (API_BASE_URL +:+ "/indicators/" +:+ id) (requestInit None)
            = Resolved r'
          /\ ok r' = true /\ json r' = inr body).
Proof.
  intros Hf Hok e.
  pose proof (apiFetch_not_ok endpoint options r Hf Hok) as Hapi.
  cbv zeta in Hapi. fold e in Hapi.
  split; [exact Hapi |]. split.
  - intros id -> ->. unfold fetchIndicatorById. rewrite Hapi. reflexivity.
  - intros id log v. apply fetchIndicatorById_resolved_inv.
Qed.

(** C6: on the same wire object the list transformation of
    [fetchIndicators] and the single-record transformation of
    [fetchIndicatorById] produce the same record: eight fields copied,
    [threat_level] renamed to [threatLevel], the two timestamps turned
    into dates. *)
Theorem fetchIndicators_agrees_with_fetchIndicatorById
    `{Platform} `{Environment}
    (params : option IndicatorParams) (id : string) (rs r : Response)
    (ws : list (gmap string Value)) (i : nat) (w : gmap string Value) :
  fetch (API_BASE_URL +:+ indicatorsEndpoint params) (requestInit None)
    = Resolved rs ->
  ok rs = true -> json rs = inr (Arr (Obj <$> ws)) ->
  fetch (API_BASE_URL +:+ "/indicators/" +:+ id) (requestInit None)
    = Resolved r ->
  ok r = true -> json r = inr (Obj w) ->
  ws !! i = Some w ->
  exists recs rec,
    fetchIndicators params = resolve (Arr recs)
    /\ recs !! i = Some rec
    /\ fetchIndicatorById id = resolve rec
    /\ rec.["id"] = inr (prop w "id")
    /\ rec.["value"] = inr (prop w "value")
    /\ rec.["type"] = inr (prop w "type")
    /\ rec.["threatLevel"] = inr (prop w "threat_level")
    /\ rec.["score"] = inr (prop w "score")
    /\ rec.["sources"] = inr (prop w "sources")
    /\ rec.["firstSeen"] = inr (new_Date (prop w "first_seen"))
    /\ rec.["lastSeen"] = inr (new_Date (prop w "last_seen"))
    /\ rec.["tags"] = inr (prop w "tags")
    /\ rec.["description"] = inr (prop w "description")
    /\ rec.["correlations"] = inr (prop w "correlations").
Proof.
  intros Hfs Hoks Hjs Hf Hok Hj Hi.
  unfold fetchIndicators, fetchIndicatorById. cbv zeta.
  rewrite (apiFetch_ok _ _ rs _ Hfs Hoks Hjs), (apiFetch_ok _ _ r _ Hf Hok Hj).
  cbn [await resolve].
  match goal with
  | |- context [array_map _ ?f] =>
      set (cb := f);
      set (g := fun v => match cb v with inr r => r | inl _ => Undefined end)
  end.
  rewrite (array_map_objects cb g) by (intros m; reflexivity).
  exists (g <$> (Obj <$> ws)), (g (Obj w)).
  split; [reflexivity |].
  split; [rewrite !list_lookup_fmap, Hi; reflexivity |].
  split; [reflexivity |].
  clear. repeat split; vm_compute; reflexivity.
Qed.

(** C10: a feed whose [indicator_count] is missing, [null] or 0 comes
    out of [fetchFeeds] with [indicatorCount] equal to the number 0, and
    [FeedStatus] prints that 0 in its IOC counter without throwing; the
    other fields are carried over, [last_updated] as a date. *)
Theorem fetchFeeds_defaults_indicatorCount `{Platform} `{Environment}
    (r : Response) (ms : list (gmap string Value)) (i : nat)
    (m : gmap string Value) :
  fetch (API_BASE_URL +:+ "/feeds") (requestInit None) = Resolved r ->
  ok r = true -> json r = inr (Arr (Obj <$> ms)) ->
  ms !! i = Some m ->
  m !! "indicator_count" = None
  \/ m !! "indicator_count" = Some Null
  \/ m !! "indicator_count" = Some (Num 0) ->
  exists feeds feed,
    fetchFeeds = resolve (Arr feeds)
    /\ feeds !! i = Some feed
    /\ feed.["indicatorCount"] = inr (Num 0)
    /\ FeedStatus.iocCount feed = inr (number_toLocaleString 0 +:+ " IOCs")
    /\ feed.["id"] = inr (prop m "id")
    /\ feed.["name"] = inr (prop m "name")
    /\ feed.["description"] = inr (prop m "description")
    /\ feed.["url"] = inr (prop m "url")
    /\ feed.["lastUpdated"] = inr (new_Date (prop m "last_updated"))
    /\ feed.["status"] = inr (prop m "status")
    /\ feed.["reliability"] = inr (prop m "reliability").
Proof.
  intros Hf Hok Hj Hi Hcount.
  unfold fetchFeeds. rewrite (apiFetch_ok _ _ r _ Hf Hok Hj).
  cbn [await resolve].
  match goal with
  | |- context [array_map _ ?f] =>
      set (cb := f);
      set (g := fun v => match cb v with inr r => r | inl _ => Undefined end)
  end.
  rewrite (array_map_objects cb g) by (intros m'; reflexivity).
  exists (g <$> (Obj <$> ms)), (g (Obj m)).
  split; [reflexivity |].
  split; [rewrite !list_lookup_fmap, Hi; reflexivity |].
  assert (Hc : Js.or (prop m "indicator_count") (Num 0) = Num 0).
  { unfold prop. destruct Hcount as [-> | [-> | ->]]; reflexivity. }
  assert (Hg : g (Obj m) = object [
      ("id", prop m "id"); ("name", prop m "name");
      ("description", prop m "description"); ("url", prop m "url");
      ("lastUpdated", new_Date (prop m "last_updated"));
      ("indicatorCount", Js.or (prop m "indicator_count") (Num 0));
      ("status", prop m "status");
      ("reliability", prop m "reliability") ]) by reflexivity.
  rewrite Hg, Hc. clear.
  repeat split; vm_compute; reflexivity.
Qed.

(** ** [ThreatTable] *)

Section TableFacts.
Import Threat ThreatTable.

Lemma toggle_expanded_in (x : string) (st : State) :
  x ∈ expandedRows st ->
  expandedRows (toggleRowExpansion x st) = expandedRows st ∖ {[ x ]}.
Proof.
  intros Hx. unfold toggleRowExpansion. cbn.
  rewrite bool_decide_eq_true_2 by done. reflexivity.
Qed.

Lemma toggle_expanded_notin (x : string) (st : State) :
  x ∉ expandedRows st ->
  expandedRows (toggleRowExpansion x st) = expandedRows st ∪ {[ x ]}.
Proof.
  intros Hx. unfold toggleRowExpansion. cbn.
  rewrite bool_decide_eq_false_2 by done. reflexivity.
Qed.

Lemma toggle_keeps_sorting (x : string) (st : State) :
  sortField (toggleRowExpansion x st) = sortField st
  /\ sortDirection (toggleRowExpansion x st) = sortDirection st
  /\ copiedId (toggleRowExpansion x st) = copiedId st.
Proof. auto. Qed.

Lemma State_ext (s t : State) :
  sortField s = sortField t -> sortDirection s = sortDirection t ->
  copiedId s = copiedId t -> expandedRows s = expandedRows t -> s = t.
Proof. destruct s, t; simpl; congruence. Qed.

End TableFacts.

(** C9: [toggleRowExpansion] removes the id from the set of expanded
    rows when it is there and adds it when it is not, touches no other
    element, and applied twice gives back the state it started from. *)
Theorem toggleRowExpansion_involution (x : string) (st : ThreatTable.State) :
  let rows := ThreatTable.expandedRows st in
  let rows' := ThreatTable.expandedRows (ThreatTable.toggleRowExpansion x st) in
  (x ∈ rows -> rows' = rows ∖ {[ x ]})
  /\ (x ∉ rows -> rows' = rows ∪ {[ x ]})
  /\ (forall y, y ≠ x -> y ∈ rows' <-> y ∈ rows)
  /\ ThreatTable.toggleRowExpansion x (ThreatTable.toggleRowExpansion x st) = st.
Proof.
  cbv zeta. split; [apply toggle_expanded_in |].
  split; [apply toggle_expanded_notin |]. split.
  - intros y Hy. destruct (decide (x ∈ ThreatTable.expandedRows st)) as [Hx | Hx].
    + rewrite toggle_expanded_in by done.
      rewrite elem_of_difference, elem_of_singleton. tauto.
    + rewrite toggle_expanded_notin by done.
      rewrite elem_of_union, elem_of_singleton. tauto.
  - apply State_ext; try reflexivity.
    destruct (decide (x ∈ ThreatTable.expandedRows st)) as [Hx | Hx].
    + rewrite toggle_expanded_notin; rewrite toggle_expanded_in by done.
      * apply set_eq. intros y.
        rewrite elem_of_union, elem_of_difference, elem_of_singleton.
        destruct (decide (y = x)) as [-> | Hy]; tauto.
      * rewrite elem_of_difference, elem_of_singleton. tauto.
    + rewrite toggle_expanded_in; rewrite toggle_expanded_notin by done.
      * apply set_eq. intros y.
        rewrite elem_of_difference, elem_of_union, elem_of_singleton.
        split; [tauto |]. intros Hy. split; [tauto |]. congruence.
      * rewrite elem_of_union, elem_of_singleton. tauto.
Qed.

(** The documented thresholds, spelled out. *)
Lemma level_thresholds (s : Z) :
  Engine.level s =
    if 80 <=? s then Threat.critical
    else if 60 <=? s then Threat.high
    else if 40 <=? s then Threat.medium
    else if 20 <=? s then Threat.low
    else Threat.info.
Proof. reflexivity. Qed.

Lemma level_cases (s : Z) :
  (80 <= s /\ Engine.level s = Threat.critical)
  \/ (60 <= s < 80 /\ Engine.level s = Threat.high)
  \/ (40 <= s < 60 /\ Engine.level s = Threat.medium)
  \/ (20 <= s < 40 /\ Engine.level s = Threat.low)
  \/ (s < 20 /\ Engine.level s = Threat.info).
Proof.
  rewrite level_thresholds.
  destruct (Z.leb_spec 80 s); [left; split; [lia | reflexivity] |].
  destruct (Z.leb_spec 60 s); [right; left; split; [lia | reflexivity] |].
  destruct (Z.leb_spec 40 s); [do 2 right; left; split; [lia | reflexivity] |].
  destruct (Z.leb_spec 20 s); [do 3 right; left; split; [lia | reflexivity] |].
  do 4 right. split; [lia | reflexivity].
Qed.

(** The class of the score text and of the score bar for each level. *)
Lemma getScoreColor_by_level (s : Z) :
  ThreatTable.getScoreColor s =
    match Engine.level s with
    | Threat.critical => "text-destructive"
    | Threat.high => "text-orange-400"
    | Threat.medium => "text-warning"
    | Threat.low => "text-primary"
    | Threat.info => "text-accent"
    end.
Proof.
  rewrite level_thresholds. unfold ThreatTable.getScoreColor.
  repeat (match goal with |- context [?a <=? ?b] => destruct (a <=? b) end);
    reflexivity.
Qed.

Lemma scoreBarColor_by_level (i : Threat.ThreatIndicator) :
  ThreatTable.scoreBarColor i =
    match Engine.level (Threat.score i) with
    | Threat.critical => "bg-destructive"
    | Threat.high => "bg-orange-500"
    | Threat.medium => "bg-warning"
    | Threat.low => "bg-primary"
    | Threat.info => "bg-accent"
    end.
Proof.
  rewrite level_thresholds. unfold ThreatTable.scoreBarColor.
  repeat (match goal with |- context [?a <=? ?b] => destruct (a <=? b) end);
    reflexivity.
Qed.

(** C5: the level of a score is fixed by the thresholds 80, 60, 40 and
    20, and the table colours a score by the same four boundaries: the
    text class and the bar class are those of the score's level, so two
    scores share a colour exactly when they share a level. *)
Theorem score_colours_follow_level (i j : Threat.ThreatIndicator) :
  let s := Threat.score i in
  let t := Threat.score j in
  ((80 <= s /\ Engine.level s = Threat.critical
        /\ ThreatTable.getScoreColor s = "text-destructive"
        /\ ThreatTable.scoreBarColor i = "bg-destructive")
   \/ (60 <= s < 80 /\ Engine.level s = Threat.high
        /\ ThreatTable.getScoreColor s = "text-orange-400"
        /\ ThreatTable.scoreBarColor i = "bg-orange-500")
   \/ (40 <= s < 60 /\ Engine.level s = Threat.medium
        /\ ThreatTable.getScoreColor s = "text-warning"
        /\ ThreatTable.scoreBarColor i = "bg-warning")
   \/ (20 <= s < 40 /\ Engine.level s = Threat.low
        /\ ThreatTable.getScoreColor s = "text-primary"
        /\ ThreatTable.scoreBarColor i = "bg-primary")
   \/ (s < 20 /\ Engine.level s = Threat.info
        /\ ThreatTable.getScoreColor s = "text-accent"
        /\ ThreatTable.scoreBarColor i = "bg-accent"))
  /\ (ThreatTable.getScoreColor s = ThreatTable.getScoreColor t
      <-> Engine.level s = Engine.level t)
  /\ (ThreatTable.scoreBarColor i = ThreatTable.scoreBarColor j
      <-> Engine.level s = Engine.level t).
Proof.
  cbv zeta. split; [| split].
  - rewrite getScoreColor_by_level, scoreBarColor_by_level.
    destruct (level_cases (Threat.score i))
      as [[? ->] | [[? ->] | [[? ->] | [[? ->] | [? ->]]]]]; tauto.
  - rewrite !getScoreColor_by_level.
    destruct (Engine.level (Threat.score i)), (Engine.level (Threat.score j));
      split; intros Heq; try reflexivity; discriminate Heq.
  - rewrite !scoreBarColor_by_level.
    destruct (Engine.level (Threat.score i)), (Engine.level (Threat.score j));
      split; intros Heq; try reflexivity; discriminate Heq.
Qed.

(** *** The sort of the table *)

Section SortFacts.
Import ThreatTable.
Context {A : Type} (cmp : A -> A -> Number).

Lemma insert_sorted_perm (x : A) (l : list A) :
  Permutation (x :: l) (insert_sorted cmp x l).
Proof.
  induction l as [| y ys IH]; simpl; [reflexivity |].
  destruct (sort_le cmp x y); [reflexivity |].
  rewrite perm_swap. apply perm_skip, IH.
Qed.

Lemma array_sort_perm (l : list A) : Permutation l (array_sort cmp l).
Proof.
  induction l as [| x xs IH]; simpl; [reflexivity |].
  rewrite <- insert_sorted_perm. apply perm_skip, IH.
Qed.

(** Stability: elements that tie with each other are never
    reordered, whatever else is in the list. *)
Section Stable.
Variable p : A -> bool.
Hypothesis p_ties : forall a b, p a = true -> p b = true ->
                                sort_le cmp a b = true.

Lemma insert_sorted_filter (x : A) (l : list A) :
  List.filter p (insert_sorted cmp x l) = List.filter p (x :: l).
Proof using p_ties.
  induction l as [| y ys IH]; [reflexivity |].
  cbn [insert_sorted]. destruct (sort_le cmp x y) eqn:Hle; [reflexivity |].
  cbn [List.filter] in *. rewrite IH.
  destruct (p x) eqn:Hx, (p y) eqn:Hy; try reflexivity.
  rewrite (p_ties x y Hx Hy) in Hle. discriminate.
Qed.

Lemma array_sort_filter (l : list A) :
  List.filter p (array_sort cmp l) = List.filter p l.
Proof using p_ties.
  induction l as [| x xs IH]; [reflexivity |].
  cbn [array_sort]. rewrite insert_sorted_filter.
  cbn [List.filter]. rewrite IH. reflexivity.
Qed.
End Stable.

(** Order: with a total and transitive comparator the result is
    sorted. *)
Section Ordered.
Hypothesis le_total : forall a b, sort_le cmp a b = false ->
                                  sort_le cmp b a = true.
Hypothesis le_trans : forall a b c, sort_le cmp a b = true ->
                                    sort_le cmp b c = true ->
                                    sort_le cmp a c = true.

Lemma insert_sorted_Forall (P : A -> Prop) (x : A) (l : list A) :
  P x -> Forall P l -> Forall P (insert_sorted cmp x l).
Proof.
  intros Hx Hl. induction Hl as [| y ys Hy Hys IH]; simpl.
  - constructor; [exact Hx | constructor].
  - destruct (sort_le cmp x y); repeat constructor; assumption.
Qed.

Lemma insert_sorted_sorted (x : A) (l : list A) :
  StronglySorted (fun a b => sort_le cmp a b = true) l ->
  StronglySorted (fun a b => sort_le cmp a b = true) (insert_sorted cmp x l).
Proof using le_total le_trans.
  induction 1 as [| y ys Hs IH Hy]; simpl.
  - constructor; constructor.
  - destruct (sort_le cmp x y) eqn:Hle.
    + constructor; [constructor; assumption |].
      constructor; [exact Hle |].
      eapply Forall_impl; [exact Hy |].
      intros z Hz. exact (le_trans _ _ _ Hle Hz).
    + constructor; [exact IH |].
      apply insert_sorted_Forall; [apply le_total, Hle | exact Hy].
Qed.

Lemma array_sort_sorted (l : list A) :
  StronglySorted (fun a b => sort_le cmp a b = true) (array_sort cmp l).
Proof using le_total le_trans.
  induction l as [| x xs IH]; simpl; [constructor |].
  apply insert_sorted_sorted, IH.
Qed.
End Ordered.

End SortFacts.

(** Under the initial state the comparator puts the higher score
    first. *)
Lemma default_sort_le (a b : Threat.ThreatIndicator) :
  ThreatTable.sort_le
    (ThreatTable.compareFn ThreatTable.by_score ThreatTable.desc) a b
  = (Threat.score b <=? Threat.score a).
Proof.
  unfold ThreatTable.sort_le, ThreatTable.compareFn, ThreatTable.neg.
  apply eq_iff_eq_true. rewrite !Z.leb_le. lia.
Qed.

Lemma StronglySorted_weaken {A} (R S : A -> A -> Prop) (l : list A) :
  (forall a b, R a b -> S a b) -> StronglySorted R l -> StronglySorted S l.
Proof.
  intros HRS. induction 1 as [| x xs _ IH Hx]; constructor; [exact IH |].
  eapply Forall_impl; [exact Hx | intros y; apply HRS].
Qed.

(** C7, as the code behaves: for any sort field and direction the
    displayed rows are a rearrangement of the given list (none skipped,
    none repeated); under the initial setting they are in descending
    order of score, and rows of equal score keep the order they have in
    the list (the id plays no part). *)
Theorem sortedIndicators_stable (st : ThreatTable.State)
    (l : list Threat.ThreatIndicator) :
  Permutation l (ThreatTable.sortedIndicators st l)
  /\ StronglySorted (fun a b => Threat.score b <= Threat.score a)
       (ThreatTable.sortedIndicators ThreatTable.initial l)
  /\ (forall k,
        List.filter (fun r => Threat.score r =? k)
          (ThreatTable.sortedIndicators ThreatTable.initial l)
        = List.filter (fun r => Threat.score r =? k) l).
Proof.
  split; [apply array_sort_perm |].
  change (ThreatTable.sortedIndicators ThreatTable.initial l)
    with (ThreatTable.array_sort
            (ThreatTable.compareFn ThreatTable.by_score ThreatTable.desc) l).
  split.
  - eapply StronglySorted_weaken; [| apply array_sort_sorted].
    + intros a b. cbv beta. rewrite default_sort_le. apply Z.leb_le.
    + intros a b. rewrite !default_sort_le, Z.leb_gt, Z.leb_le. lia.
    + intros a b c. rewrite !default_sort_le, !Z.leb_le. lia.
  - intros k. apply array_sort_filter. intros a b Ha Hb.
    rewrite default_sort_le.
    apply Z.eqb_eq in Ha, Hb. apply Z.leb_le. lia.
Qed.

(** C7 as stated fails: two rows of equal score stay in the order of
    the list, here with the larger id first. *)
Lemma sortedIndicators_no_id_tiebreak :
  ThreatTable.sortedIndicators ThreatTable.initial
    [Sample.row "b" 50; Sample.row "a" 50]
  = [Sample.row "b" 50; Sample.row "a" 50]
  /\ ~ StronglySorted ThreatTable.score_then_id
         (ThreatTable.sortedIndicators ThreatTable.initial
            [Sample.row "b" 50; Sample.row "a" 50]).
Proof.
  split; [reflexivity |].
  intros Hs. apply StronglySorted_inv in Hs as [_ Hall].
  apply Forall_inv in Hall. destruct Hall as [Hlt | [_ Hleb]].
  - cbn in Hlt. lia.
  - vm_compute in Hleb. discriminate.
Qed.

(** A state and a list at which the stability statement applies. *)
Lemma sortedIndicators_stable_witness :
  Permutation [Sample.row "b" 50; Sample.row "c" 70; Sample.row "a" 50]
    (ThreatTable.sortedIndicators ThreatTable.initial
       [Sample.row "b" 50; Sample.row "c" 70; Sample.row "a" 50])
  /\ List.filter (fun r => Threat.score r =? 50)
       (ThreatTable.sortedIndicators ThreatTable.initial
          [Sample.row "b" 50; Sample.row "c" 70; Sample.row "a" 50])
     = [Sample.row "b" 50; Sample.row "a" 50].
Proof.
  pose proof (sortedIndicators_stable ThreatTable.initial
                [Sample.row "b" 50; Sample.row "c" 70; Sample.row "a" 50])
    as (Hperm & _ & Hk).
  split; [exact Hperm | exact (Hk 50)].
Defined.

(** ** Statistics and the level chart *)






(** ** The correlator *)

Section CorrelatorFacts.
Import Engine.

Lemma id_add_correlation (x : Id) (i : Indicator) :
  id (add_correlation x i) = id i.
Proof. unfold add_correlation. destruct (existsb _ _); reflexivity. Qed.

Lemma id_link (i : Indicator) (p : Id * Id) : id (link i p) = id i.
Proof.
  unfold link. destruct (N.eqb _ _); [apply id_add_correlation |].
  destruct (N.eqb _ _); [apply id_add_correlation | reflexivity].
Qed.

Lemma id_apply_links (ps : list (Id * Id)) (i : Indicator) :
  id (apply_links ps i) = id i.
Proof.
  unfold apply_links.
  change (id i) with (id (set_correlations [] i)).
  generalize (set_correlations [] i).
  induction ps as [| p ps IH]; intros j; [reflexivity |].
  cbn [fold_left]. rewrite IH. apply id_link.
Qed.

Lemma in_add_correlation (z x : Id) (i : Indicator) :
  In z (correlations (add_correlation x i)) <-> In z (correlations i) \/ z = x.
Proof.
  unfold add_correlation. destruct (existsb (N.eqb x) (correlations i)) eqn:Hex.
  - apply existsb_exists in Hex as (y & Hy & Hxy). apply N.eqb_eq in Hxy.
    subst y. split; [auto |]. intros [Hz | ->]; assumption.
  - cbn [correlations set_correlations]. rewrite in_app_iff. cbn [In].
    intuition congruence.
Qed.

Lemma in_link (z : Id) (i : Indicator) (p : Id * Id) :
  In z (correlations (link i p))
  <-> In z (correlations i)
      \/ (id i = fst p /\ z = snd p) \/ (id i = snd p /\ z = fst p).
Proof.
  unfold link.
  destruct (N.eqb_spec (id i) (fst p)) as [Hx | Hx].
  - rewrite in_add_correlation. intuition congruence.
  - destruct (N.eqb_spec (id i) (snd p)) as [Hy | Hy].
    + rewrite in_add_correlation. intuition congruence.
    + intuition congruence.
Qed.

Lemma in_fold_link (z : Id) (ps : list (Id * Id)) (i : Indicator) :
  In z (correlations (fold_left link ps i))
  <-> In z (correlations i)
      \/ exists p, In p ps
           /\ ((id i = fst p /\ z = snd p) \/ (id i = snd p /\ z = fst p)).
Proof.
  revert i. induction ps as [| q ps IH]; intros i; cbn [fold_left].
  - split; [auto |]. intros [Hz | (p & [] & _)]. exact Hz.
  - rewrite IH, in_link, id_link. split.
    + intros [[Hz | Hq] | (p & Hp & Hl)].
      * left. exact Hz.
      * right. exists q. split; [left; reflexivity | exact Hq].
      * right. exists p. split; [right; exact Hp | exact Hl].
    + intros [Hz | (p & [-> | Hp] & Hl)].
      * left. left. exact Hz.
      * left. right. exact Hl.
      * right. exists p. split; assumption.
Qed.

(** After a pass an indicator lists exactly the partners of its
    identifier among the discovered pairs. *)
Lemma in_apply_links (z : Id) (ps : list (Id * Id)) (i : Indicator) :
  In z (correlations (apply_links ps i))
  <-> exists p, In p ps
        /\ ((id i = fst p /\ z = snd p) \/ (id i = snd p /\ z = fst p)).
Proof.
  unfold apply_links. rewrite in_fold_link. cbn [correlations set_correlations id].
  split; [intros [[] | Hp]; exact Hp | auto].
Qed.

Context `{Resolver}.

Lemma discovered_distinct (l : list Indicator) (p : Id * Id) :
  In p (discovered l) -> fst p <> snd p.
Proof.
  unfold discovered. intros Hp.
  apply in_flat_map in Hp as (a & _ & Hp).
  apply in_flat_map in Hp as (b & _ & Hp).
  destruct (N.eqb_spec (id a) (id b)) as [Heq | Hne]; cbn in Hp; [destruct Hp |].
  destruct (related a b); [| destruct Hp].
  destruct Hp as [<- | []]. exact Hne.
Qed.

Lemma in_correlate (s : Store) (A : Indicator) :
  In A (indicators (correlate s)) ->
  exists a, In a (indicators s)
    /\ A = apply_links (discovered (indicators s)) a.
Proof.
  cbn [correlate indicators]. intros HA.
  apply in_map_iff in HA as (a & <- & Ha). exists a. auto.
Qed.

End CorrelatorFacts.

(** C3: after a correlation pass, for any two indicators A and B of
    the store, B's id is among A's correlations exactly when A's id is
    among B's; and no indicator lists itself. *)
Theorem correlations_symmetric `{Engine.Resolver} (s : Engine.Store)
    (A B : Engine.Indicator) :
  A ∈ Engine.indicators (Engine.correlate s) ->
  B ∈ Engine.indicators (Engine.correlate s) ->
  (Engine.id B ∈ Engine.correlations A <-> Engine.id A ∈ Engine.correlations B)
  /\ Engine.id A ∉ Engine.correlations A.
Proof.
  rewrite !list_elem_of_In. intros HA HB.
  apply in_correlate in HA as (a & _ & ->).
  apply in_correlate in HB as (b & _ & ->).
  rewrite !in_apply_links, !id_apply_links. split.
  - split; intros (p & Hp & Hl); exists p; (split; [exact Hp | tauto]).
  - intros (p & Hp & Hl). apply discovered_distinct in Hp.
    destruct Hl as [[Hx Hy] | [Hx Hy]]; congruence.
Qed.

Lemma correlations_symmetric_witness :
  exists A B,
    Engine.indicators Sample.store !! 1%nat = Some A
    /\ Engine.indicators Sample.store !! 2%nat = Some B
    /\ Engine.id B ∈ Engine.correlations A
    /\ Engine.id A ∈ Engine.correlations B.
Proof.
  eexists _, _. split; [reflexivity |]. split; [reflexivity |].
  match goal with
  | |- _ /\ Engine.id ?a ∈ Engine.correlations ?b =>
      pose proof (@correlations_symmetric Sample.no_resolution
                    Sample.merged a b) as Hsym
  end.
  destruct Hsym as [Hiff _].
  - vm_compute. apply list_elem_of_In. cbn. tauto.
  - vm_compute. apply list_elem_of_In. cbn. tauto.
  - assert (Hab : forall P Q : Prop, (P <-> Q) -> P -> P /\ Q) by tauto.
    apply (Hab _ _ Hiff). vm_compute. apply list_elem_of_In. cbn. tauto.
Defined.

(** ** The store and the merge engine *)

Section StoreFacts.
Import Engine.

Lemma has_key_true (k : Threat.IOCType * string) (i : Indicator) :
  has_key k i = true <-> key i = k.
Proof. unfold has_key. apply bool_decide_eq_true. Qed.

Lemma key_rescore `{Scorer} (i : Indicator) : key (rescore i) = key i.
Proof. reflexivity. Qed.



Lemma key_link (i : Indicator) (p : Id * Id) : key (link i p) = key i.
Proof.
  unfold link, add_correlation.
  repeat (destruct (N.eqb _ _) || destruct (existsb _ _)); reflexivity.
Qed.

Lemma key_apply_links (ps : list (Id * Id)) (i : Indicator) :
  key (apply_links ps i) = key i.
Proof.
  unfold apply_links.
  change (key i) with (key (set_correlations [] i)).
  generalize (set_correlations [] i).
  induction ps as [| p ps IH]; intros j; [reflexivity |].
  cbn [fold_left]. rewrite IH. apply key_link.
Qed.



Lemma existsb_has_key (k : Threat.IOCType * string) (l : list Indicator) :
  existsb (has_key k) l = true <-> In k (map key l).
Proof.
  rewrite existsb_exists, in_map_iff.
  split; intros (e & H1 & H2); exists e.
  - split; [apply has_key_true, H2 | exact H1].
  - split; [exact H2 | apply has_key_true, H1].
Qed.

(** [upsert] leaves the list of keys alone or extends it by a key that
    was not there. *)
Lemma keys_upsert (i : Indicator) (l : list Indicator) :
  map key (upsert i l) =
    if existsb (has_key (key i)) l then map key l else map key l ++ [key i].
Proof.
  unfold upsert. destruct (existsb (has_key (key i)) l).
  - rewrite map_map. apply map_ext. intros e.
    destruct (has_key (key i) e) eqn:He; [| reflexivity].
    apply has_key_true in He. congruence.
  - rewrite map_app. reflexivity.
Qed.

Lemma NoDup_keys_upsert (i : Indicator) (l : list Indicator) :
  NoDup (map key l) -> NoDup (map key (upsert i l)).
Proof.
  intros Hnd. rewrite keys_upsert.
  destruct (existsb (has_key (key i)) l) eqn:Hex; [exact Hnd |].
  apply NoDup_app. split; [exact Hnd |]. split.
  - intros k Hk Hk'. apply list_elem_of_singleton in Hk'. subst k.
    apply list_elem_of_In, existsb_has_key in Hk. congruence.
  - apply NoDup_singleton.
Qed.

Context `{Scorer} `{Resolver}.

Lemma keys_correlate (s : Store) :
  map key (indicators (correlate s)) = map key (indicators s).
Proof.
  cbn [correlate indicators]. rewrite map_map.
  apply map_ext. intros e. apply key_apply_links.
Qed.

(** The identity invariant. *)
Lemma reachable_NoDup_keys (s : Store) :
  reachable s -> NoDup (map key (indicators s)).
Proof.
  induction 1 as [fs | d s _ IH | s _ IH | fs s _ IH].
  - apply NoDup_nil_2.
  - unfold ingest, merge.
    destruct (lookup (d_type d, d_value d) s);
      cbn [indicators]; apply NoDup_keys_upsert, IH.
  - rewrite keys_correlate. exact IH.
  - exact IH.
Qed.

End StoreFacts.

(** C2: in every store the engine can reach, two records at different
    positions differ in [(type, value)]. *)
Theorem identity_unique `{Engine.Scorer} `{Engine.Resolver} (s : Engine.Store)
    (i j : nat) (a b : Engine.Indicator) :
  Engine.reachable s ->
  Engine.indicators s !! i = Some a ->
  Engine.indicators s !! j = Some b ->
  i <> j ->
  (Engine.type a, Engine.value a) <> (Engine.type b, Engine.value b).
Proof.
  intros Hr Ha Hb Hij Hk. apply Hij.
  apply (NoDup_lookup (map Engine.key (Engine.indicators s)) i j (Engine.key a)).
  - apply reachable_NoDup_keys, Hr.
  - change (map Engine.key (Engine.indicators s) !! i)
      with ((Engine.key <$> Engine.indicators s) !! i).
    rewrite list_lookup_fmap, Ha. reflexivity.
  - change (map Engine.key (Engine.indicators s) !! j)
      with ((Engine.key <$> Engine.indicators s) !! j).
    rewrite list_lookup_fmap, Hb. cbn. f_equal. symmetry. exact Hk.
Qed.

Lemma identity_unique_witness :
  exists a b,
    Engine.indicators Sample.store !! 0%nat = Some a
    /\ Engine.indicators Sample.store !! 2%nat = Some b
    /\ (Engine.type a, Engine.value a) <> (Engine.type b, Engine.value b).
Proof.
  eexists _, _. split; [reflexivity |]. split; [reflexivity |].
  apply (@identity_unique Sample.scorer Sample.no_resolution Sample.store
           0%nat 2%nat).
  - unfold Sample.store, Sample.merged. repeat constructor.
  - reflexivity.
  - reflexivity.
  - lia.
Defined.

(** *** Re-ingesting a draft *)

Section MergeFacts.
Import Engine.

Lemma tag_eqb_refl (t : string) : tag_eqb t t = true.
Proof. apply String.eqb_refl. Qed.

Lemma tag_mem_In (t : string) (ts : list string) :
  In t ts -> tag_mem t ts = true.
Proof.
  intros Hin. apply existsb_exists. exists t. split; [exact Hin |].
  apply tag_eqb_refl.
Qed.

Lemma tag_mem_app (t : string) (ts us : list string) :
  tag_mem t (ts ++ us) = tag_mem t ts || tag_mem t us.
Proof. apply existsb_app. Qed.

Lemma tag_mem_add (t u : string) (ts : list string) :
  tag_mem t ts = true -> tag_mem t (tag_add ts u) = true.
Proof.
  intros Hm. unfold tag_add. destruct (tag_mem u ts); [exact Hm |].
  rewrite tag_mem_app, Hm. reflexivity.
Qed.

Lemma tag_mem_add_same (t : string) (ts : list string) :
  tag_mem t (tag_add ts t) = true.
Proof.
  unfold tag_add. destruct (tag_mem t ts) eqn:Hm; [exact Hm |].
  rewrite tag_mem_app. cbn. rewrite tag_eqb_refl, orb_true_r. reflexivity.
Qed.

Lemma tag_mem_union_l (t : string) (new ts : list string) :
  tag_mem t ts = true -> tag_mem t (tag_union ts new) = true.
Proof.
  unfold tag_union. revert ts.
  induction new as [| u new IH]; intros ts Hm; [exact Hm |].
  cbn [fold_left]. apply IH, tag_mem_add, Hm.
Qed.

Lemma tag_mem_union_r (t : string) (new ts : list string) :
  In t new -> tag_mem t (tag_union ts new) = true.
Proof.
  unfold tag_union. revert ts.
  induction new as [| u new IH]; intros ts Hin; [destruct Hin |].
  cbn [fold_left]. destruct Hin as [-> | Hin].
  - apply (tag_mem_union_l t new). apply tag_mem_add_same.
  - apply IH, Hin.
Qed.

(** Tags that are all present already add nothing. *)
Lemma tag_union_absorbed (new ts : list string) :
  (forall t, In t new -> tag_mem t ts = true) -> tag_union ts new = ts.
Proof.
  unfold tag_union.
  induction new as [| u new IH]; intros Hall; [reflexivity |].
  cbn [fold_left]. unfold tag_add at 2.
  rewrite (Hall u) by (left; reflexivity).
  apply IH. intros t Ht. apply Hall. right. exact Ht.
Qed.

Lemma tag_union_idem (new ts : list string) :
  tag_union (tag_union ts new) new = tag_union ts new.
Proof. apply tag_union_absorbed. intros t. apply tag_mem_union_r. Qed.

Lemma tag_union_self (ts : list string) : tag_union ts ts = ts.
Proof. apply tag_union_absorbed. intros t. apply tag_mem_In. Qed.

Lemma source_add_idem (ss : list string) (s : string) :
  source_add (source_add ss s) s = source_add ss s.
Proof.
  unfold source_add at 2. destruct (existsb (String.eqb s) ss) eqn:Hex.
  - unfold source_add. rewrite Hex. reflexivity.
  - unfold source_add. rewrite existsb_app, Hex. cbn.
    rewrite String.eqb_refl. reflexivity.
Qed.

Lemma source_add_self (s : string) : source_add [s] s = [s].
Proof. unfold source_add. cbn. rewrite String.eqb_refl. reflexivity. Qed.

Context `{Scorer}.

(** A second merge of the same draft changes nothing in the record. *)
Lemma absorb_idem (e : Indicator) (d : Draft) :
  absorb (absorb e d) d = absorb e d.
Proof.
  unfold absorb, rescore. cbn.
  rewrite source_add_idem, tag_union_idem.
  rewrite <- Z.min_assoc, Z.min_id, <- Z.max_assoc, Z.max_id.
  destruct (non_empty (d_description d)); reflexivity.
Qed.

Lemma absorb_create (n : Id) (d : Draft) :
  absorb (create n d) d = create n d.
Proof.
  unfold absorb, create, rescore. cbn.
  rewrite source_add_self, tag_union_self, Z.min_id, Z.max_id.
  destruct (non_empty (d_description d)); reflexivity.
Qed.

(** Correlation links do not take part in a merge. *)
Lemma absorb_set_correlations (c : list Id) (e : Indicator) (d : Draft) :
  absorb (set_correlations c e) d = set_correlations c (absorb e d).
Proof. reflexivity. Qed.

Lemma link_as_set (i : Indicator) (p : Id * Id) :
  link i p = set_correlations (correlations (link i p)) i.
Proof.
  destruct i. unfold link, add_correlation. cbn.
  repeat (destruct (N.eqb _ _) || destruct (existsb _ _)); reflexivity.
Qed.

Lemma fold_link_as_set (ps : list (Id * Id)) (i : Indicator) :
  fold_left link ps i = set_correlations (correlations (fold_left link ps i)) i.
Proof.
  revert i. induction ps as [| p ps IH]; intros i; cbn [fold_left].
  - destruct i. reflexivity.
  - rewrite IH at 1. rewrite (link_as_set i p) at 2. reflexivity.
Qed.

Lemma apply_links_as_set (ps : list (Id * Id)) (i : Indicator) :
  apply_links ps i = set_correlations (correlations (apply_links ps i)) i.
Proof.
  unfold apply_links. rewrite fold_link_as_set at 1. reflexivity.
Qed.

Lemma absorb_apply_links (ps : list (Id * Id)) (e : Indicator) (d : Draft) :
  absorb e d = e -> absorb (apply_links ps e) d = apply_links ps e.
Proof.
  intros He. rewrite (apply_links_as_set ps e) at 1.
  rewrite absorb_set_correlations, He. symmetry. apply apply_links_as_set.
Qed.

End MergeFacts.

Section IngestFacts.
Import Engine.
Context `{Scorer}.






(** A record holds a draft when a merge of the draft can add nothing
    to its sources, its tags and its timestamps. *)
Abbreviation holds d m :=
  (existsb (String.eqb (d_source d)) (sources m) = true
   /\ (forall t, In t (d_tags d) -> tag_mem t (tags m) = true)
   /\ Z.le (firstSeen m) (d_timestamp d)
   /\ Z.le (d_timestamp d) (lastSeen m)).











(** A draft is settled in a list of records when the list has a
    record under the draft's key that holds the draft and carries its
    derived score, and no other record under that key. *)
Abbreviation settled d l m :=
  (In m l /\ key m = (d_type d, d_value d)
   /\ (forall x, In x l -> key x = (d_type d, d_value d) -> x = m)
   /\ holds d m /\ rescore m = m).



Context `{Resolver}.





End IngestFacts.




(** ** The client and the engine on the sample data *)

Lemma not_ok_response_raises_witness :
  Api.ok Sample.not_found = false
  /\ @fetchIndicatorById Host.utc_en_US Sample.local "unknown"
     = ([("API request failed:", ErrorMsg "API error: 404 Not Found")],
        inl (ErrorMsg "API error: 404 Not Found")).
Proof.
  split; [reflexivity |].
  refine (proj1 (proj2 (@not_ok_response_raises Host.utc_en_US Sample.local
                          "/indicators/unknown" None Sample.not_found
                          _ _)) "unknown" _ _); reflexivity.
Defined.

Lemma fetchIndicators_agrees_with_fetchIndicatorById_witness :
  exists recs rec,
    @fetchIndicators Host.utc_en_US Sample.local (Some Sample.first_page)
    = resolve (Arr recs)
    /\ recs !! 0%nat = Some rec
    /\ @fetchIndicatorById Host.utc_en_US Sample.local "ioc-1" = resolve rec
    /\ rec.["threatLevel"] = inr (Str "high")
    /\ rec.["firstSeen"] = inr (DateV (Some 1705314600000)).
Proof.
  destruct (@fetchIndicators_agrees_with_fetchIndicatorById
              Host.utc_en_US Sample.local (Some Sample.first_page) "ioc-1"
              {| ok := true; status := 200; statusText := "OK";
                 json := inr (Arr [Obj Sample.wire_indicator]) |}
              {| ok := true; status := 200; statusText := "OK";
                 json := inr (Obj Sample.wire_indicator) |}
              [Sample.wire_indicator] 0%nat Sample.wire_indicator)
    as (recs & rec & Hlist & Hi & Hone & _ & _ & _ & Hlevel & _ & _ & Hfirst & _);
    try reflexivity.
  exists recs, rec. repeat split; assumption.
Defined.

Lemma fetchFeeds_defaults_indicatorCount_witness :
  exists feeds feed,
    @fetchFeeds Host.utc_en_US Sample.local = resolve (Arr feeds)
    /\ feeds !! 0%nat = Some feed
    /\ feed.["indicatorCount"] = inr (Num 0)
    /\ @FeedStatus.iocCount Host.utc_en_US feed = inr "0 IOCs"
    /\ feed.["lastUpdated"] = inr (DateV (Some 1705314600000)).
Proof.
  destruct (@fetchFeeds_defaults_indicatorCount Host.utc_en_US Sample.local
              {| ok := true; status := 200; statusText := "OK";
                 json := inr (Arr [Obj Sample.feed_without_count]) |}
              [Sample.feed_without_count] 0%nat Sample.feed_without_count)
    as (feeds & feed & Hfetch & Hfeed & Hcount & Htext & _ & _ & _ & _ & Hdate & _).
  - reflexivity.
  - reflexivity.
  - reflexivity.
  - reflexivity.
  - left. vm_compute. reflexivity.
  - exists feeds, feed. repeat split; assumption.
Defined.

Example indicatorsEndpoint_sample :
  indicatorsEndpoint
    (Some {| search := Some "evil domain"; types := Some [Threat.ip; Threat.url];
             levels := None; sources := Some ["OTX/mock"];
             limit := Some 1000; offset := Some 0 |})
  = "/indicators?search=evil+domain&limit=1000&types=ip&types=url&sources=OTX%2Fmock".
Proof. vm_compute. reflexivity. Qed.

(** The scenarios of section 8 of the specification, run. *)
Example two_sources_merge :
  exists e,
    Engine.lookup (Threat.ip, "1.2.3.4") Sample.merged = Some e
    /\ Engine.sources e = ["OTX-mock"; "Mock-B"]
    /\ Engine.tags e = ["scanner"; "c2"]
    /\ Engine.score (@Engine.create Sample.scorer 0%N Sample.otx_scanner) < Engine.score e
    /\ Engine.score (@Engine.create Sample.scorer 0%N Sample.mockb_c2) < Engine.score e.
Proof. eexists. repeat split; vm_compute; reflexivity. Qed.

Example url_correlates_with_domain :
  map (fun i => (Engine.value i, Engine.correlations i))
      (Engine.indicators Sample.store)
  = [("1.2.3.4", []); ("evil.example", [2%N]); ("http://evil.example/x", [1%N])].
Proof. vm_compute. reflexivity. Qed.

Example default_order_sample :
  map Threat.id
    (ThreatTable.sortedIndicators ThreatTable.initial
       [Sample.row "b" 50; Sample.row "c" 70; Sample.row "a" 50])
  = ["c"; "b"; "a"].
Proof. vm_compute. reflexivity. Qed.

Example host_samples :
  Host.parse_iso "2024-01-15T10:30:00.123456" = Some 1705314600123
  /\ Host.host_date (Some 1705314600000) = "1/15/2024, 10:30:00 AM"
  /\ Host.host_number 1234567 = "1,234,567".
Proof. repeat split; vm_compute; reflexivity. Qed.

(** * Further properties of the client *)

(** ** [api.ts] *)

Section ApiErrors.
Context `{Platform} `{Environment}.

Lemma get_error_inv (o : Value) (k : string) (e : Error) :
  o.[k] = inl e -> e = TypeError /\ (o = Undefined \/ o = Null).
Proof. destruct o; cbn; intros [= <-] || discriminate; auto. Qed.

Lemma get_total (o : Value) (k : string) :
  o <> Undefined -> o <> Null -> exists v, o.[k] = inr v.
Proof. destruct o; cbn; intros H1 H2; try congruence; eauto. Qed.

Lemma map_throwing_rejects (f : Value -> Error + Value) (l : list Value)
    (err : Error) :
  (forall x e, f x = inl e -> e = err) ->
  Exists (fun x => exists e, f x = inl e) l ->
  map_throwing f l = inl err.
Proof.
  intros Hf. induction 1 as [x xs (e & He) | x xs _ IH]; cbn.
  - rewrite He. f_equal. exact (Hf x e He).
  - destruct (f x) as [e | y] eqn:Hx; [f_equal; exact (Hf x e Hx) |].
    rewrite IH. reflexivity.
Qed.

End ApiErrors.

(** X1: whatever makes [apiFetch] fail (the network, a status that is
    not OK, a body that is not JSON) is logged once, with the error
    that is then raised; a rejection of [fetch] and a failure of
    [response.json()] are passed on unchanged, and a success logs
    nothing. *)
Theorem apiFetch_logs_what_it_raises `{Environment}
    (endpoint : string) (options : option RequestInit) :
  (forall e,
      fetch (API_BASE_URL +:+ endpoint) (requestInit options) = Rejected e ->
      apiFetch endpoint options = ([("API request failed:", e)], inl e))
  /\ (forall r e,
        fetch (API_BASE_URL +:+ endpoint) (requestInit options) = Resolved r ->
        ok r = true -> json r = inl e ->
        apiFetch endpoint options = ([("API request failed:", e)], inl e))
  /\ (forall log res,
        apiFetch endpoint options = (log, res) ->
        match res with
        | inl e => log = [("API request failed:", e)]
        | inr _ => log = []
        end).
Proof.
  unfold apiFetch, apiFetch_try. split; [| split].
  - intros e ->. reflexivity.
  - intros r e -> -> ->. reflexivity.
  - intros log res.
    destruct (fetch _ _) as [e | r]; [intros [= <- <-]; reflexivity |].
    destruct (ok r); cbn; [| intros [= <- <-]; reflexivity].
    destruct (json r); intros [= <- <-]; reflexivity.
Qed.

(** X2: an OK response whose body is not an array, or is an array with
    a [null] in it, makes [fetchFeeds] and [fetchIndicators] fail with a
    [TypeError]; this failure is raised after [apiFetch] has returned,
    so nothing is logged. *)
Theorem malformed_list_rejects `{Platform} `{Environment}
    (params : option IndicatorParams) (r : Response) (body : Value) :
  ok r = true -> json r = inr body ->
  match body with
  | Arr l => Null ∈ l \/ Undefined ∈ l
  | _ => True
  end ->
  (fetch (API_BASE_URL +:+ "/feeds") (requestInit None) = Resolved r ->
   fetchFeeds = ([], inl TypeError))
  /\ (fetch (API_BASE_URL +:+ indicatorsEndpoint params) (requestInit None)
        = Resolved r ->
      fetchIndicators params = ([], inl TypeError)).
Proof.
  intros Hok Hj Hbody.
  assert (Hmap : forall f : Value -> Error + Value,
             (forall x e, f x = inl e -> e = TypeError) ->
             f Null = inl TypeError -> f Undefined = inl TypeError ->
             array_map body f = inl TypeError).
  { intros f Hf Hnull Hundef. destruct body; try reflexivity.
    unfold array_map. rewrite (map_throwing_rejects f l TypeError Hf);
      [reflexivity |].
    apply Exists_exists.
    destruct Hbody as [Hin | Hin]; eexists; (split; [exact Hin | eauto]). }
  split; intros Hf.
  - unfold fetchFeeds. rewrite (apiFetch_ok _ _ r _ Hf Hok Hj).
    cbn [await resolve]. rewrite Hmap; [reflexivity | | reflexivity ..].
    intros x e. destruct x; cbn; intros [= <-] || discriminate; reflexivity.
  - unfold fetchIndicators. cbv zeta. rewrite (apiFetch_ok _ _ r _ Hf Hok Hj).
    cbn [await resolve]. rewrite Hmap; [reflexivity | | reflexivity ..].
    intros x e. destruct x; cbn; intros [= <-] || discriminate; reflexivity.
Qed.

Lemma malformed_list_rejects_witness :
  @fetchFeeds Host.utc_en_US Scenario.null_backend = ([], inl TypeError)
  /\ @fetchIndicators Host.utc_en_US Scenario.null_backend None
     = ([], inl TypeError).
Proof.
  destruct (@malformed_list_rejects Host.utc_en_US Scenario.null_backend
              None Scenario.null_response Null eq_refl eq_refl I)
    as [Hfeeds Hind].
  split; [apply Hfeeds | apply Hind]; reflexivity.
Defined.

(** X3: [fetchStatistics] hands on the nine counters of the wire object
    under their camelCase names, values untouched. *)
Theorem fetchStatistics_renames `{Environment}
    (r : Response) (m : gmap string Value) :
  fetch (API_BASE_URL +:+ "/statistics") (requestInit None) = Resolved r ->
  ok r = true -> json r = inr (Obj m) ->
  exists stats,
    fetchStatistics = resolve stats
    /\ stats.["totalIndicators"] = inr (prop m "total_indicators")
    /\ stats.["criticalCount"] = inr (prop m "critical_count")
    /\ stats.["highCount"] = inr (prop m "high_count")
    /\ stats.["mediumCount"] = inr (prop m "medium_count")
    /\ stats.["lowCount"] = inr (prop m "low_count")
    /\ stats.["infoCount"] = inr (prop m "info_count")
    /\ stats.["activeFeeds"] = inr (prop m "active_feeds")
    /\ stats.["correlatedIOCs"] = inr (prop m "correlated_iocs")
    /\ stats.["last24hNew"] = inr (prop m "last_24h_new").
Proof.
  intros Hf Hok Hj. unfold fetchStatistics.
  rewrite (apiFetch_ok _ _ r _ Hf Hok Hj). cbn [await resolve].
  eexists. split; [reflexivity |].
  clear. repeat split; vm_compute; reflexivity.
Qed.

Lemma fetchStatistics_renames_witness :
  exists stats,
    @fetchStatistics Scenario.full = resolve stats
    /\ stats.["totalIndicators"] = inr (Num 3)
    /\ stats.["correlatedIOCs"] = inr (Num 2).
Proof.
  destruct (@fetchStatistics_renames Scenario.full
              Scenario.statistics_response Scenario.wire_statistics
              eq_refl eq_refl eq_refl)
    as (stats & Hs & Htotal & _ & _ & _ & _ & _ & _ & Hcorr & _).
  exists stats. split; [exact Hs |]. split; [exact Htotal | exact Hcorr].
Defined.

(** *** The query string *)

Section QueryFacts.
Import FormDecode.

(** Every character of a string is one the serializer produces. *)
Abbreviation safe s := (forallb form_safe (String.list_ascii_of_string s) = true).

Lemma chars_app (a b : string) :
  String.list_ascii_of_string (a +:+ b)
  = String.list_ascii_of_string a ++ String.list_ascii_of_string b.
Proof. induction a as [| c a IH]; simpl; [reflexivity | f_equal; exact IH]. Qed.

Lemma string_app_assoc (a b c : string) :
  (a +:+ b) +:+ c = a +:+ (b +:+ c).
Proof.
  induction a as [| x a IH]; [reflexivity |].
  change (String x ((a +:+ b) +:+ c) = String x (a +:+ (b +:+ c))).
  rewrite IH. reflexivity.
Qed.

Lemma safe_app (a b : string) : safe a -> safe b -> safe (a +:+ b).
Proof. intros Ha Hb. rewrite chars_app, forallb_app, Ha, Hb. reflexivity. Qed.

Lemma urlencode_byte_safe (c : ascii) : safe (urlencode_byte c).
Proof. destruct c as [[] [] [] [] [] [] [] []]; reflexivity. Qed.

Lemma urlencode_safe (s : string) : safe (urlencode s).
Proof.
  induction s as [| c s IH]; cbn [urlencode]; [reflexivity |].
  apply safe_app; [apply urlencode_byte_safe | exact IH].
Qed.

Lemma urldecode_byte (c : ascii) (rest : string) :
  urldecode (urlencode_byte c +:+ rest) = String c (urldecode rest).
Proof. destruct c as [[] [] [] [] [] [] [] []]; reflexivity. Qed.

Lemma urldecode_urlencode (s : string) : urldecode (urlencode s) = s.
Proof.
  induction s as [| c s IH]; [reflexivity |].
  cbn [urlencode]. rewrite urldecode_byte, IH. reflexivity.
Qed.

(** A separator that is no safe character splits where it stands. *)
Lemma split_on_safe (sep : ascii) (a : string) :
  form_safe sep = false -> safe a ->
  split_on sep a = [a]
  /\ forall b, split_on sep (a +:+ String sep b) = a :: split_on sep b.
Proof.
  intros Hsep. induction a as [| c a IH]; intros Ha; simpl.
  - split; [reflexivity |]. intros b. rewrite Ascii.eqb_refl. reflexivity.
  - simpl in Ha. apply andb_true_iff in Ha as [Hc Ha].
    destruct (IH Ha) as [IH1 IH2].
    destruct (Ascii.eqb_spec c sep) as [-> | _]; [congruence |].
    rewrite IH1. split; [reflexivity |]. intros b. rewrite IH2. reflexivity.
Qed.

Lemma split_pair_safe (a v : string) :
  safe a -> split_pair (a +:+ "=" +:+ v) = (a, v).
Proof.
  induction a as [| c a IH]; intros Ha; simpl; [reflexivity |].
  simpl in Ha. apply andb_true_iff in Ha as [Hc Ha].
  destruct (Ascii.eqb_spec c "=") as [-> | _]; [discriminate Hc |].
  rewrite (IH Ha). reflexivity.
Qed.

(** A serialized pair holds safe characters and one [=]; splitting at
    [&] leaves it whole. *)
Lemma split_on_pair (n v rest : string) :
  split_on "&" (urlencode n +:+ "=" +:+ urlencode v)
  = [urlencode n +:+ "=" +:+ urlencode v]
  /\ split_on "&" ((urlencode n +:+ "=" +:+ urlencode v) +:+ "&" +:+ rest)
     = (urlencode n +:+ "=" +:+ urlencode v) :: split_on "&" rest.
Proof.
  pose proof (urlencode_safe n) as Hn. pose proof (urlencode_safe v) as Hv.
  destruct (split_on_safe "&" (urlencode v) eq_refl Hv) as [Hv1 Hv2].
  destruct (split_on_safe "&" (urlencode n) eq_refl Hn) as [Hn1 _].
  assert (Hgo : forall a tail,
             safe a ->
             split_on "&" (a +:+ "=" +:+ tail)
             = (a +:+ "=" +:+ hd "" (split_on "&" tail))
               :: tl (split_on "&" tail)).
  { induction a as [| c a IH]; intros tail Ha.
    - change (split_on "&" (String "=" tail)
              = String "=" (hd "" (split_on "&" tail))
                :: tl (split_on "&" tail)).
      cbn [split_on]. change (Ascii.eqb "=" "&") with false. cbv iota.
      destruct (split_on "&" tail); reflexivity.
    - simpl in Ha. apply andb_true_iff in Ha as [Hc Ha].
      change (split_on "&" (String c (a +:+ "=" +:+ tail))
              = String c (a +:+ "=" +:+ hd "" (split_on "&" tail))
                :: tl (split_on "&" tail)).
      cbn [split_on].
      destruct (Ascii.eqb_spec c "&") as [-> | _]; [discriminate Hc |].
      rewrite (IH tail Ha). reflexivity. }
  split.
  - rewrite Hgo, Hv1 by exact Hn. reflexivity.
  - replace ((urlencode n +:+ "=" +:+ urlencode v) +:+ "&" +:+ rest)
      with (urlencode n +:+ "=" +:+ (urlencode v +:+ String "&" rest)).
    + rewrite Hgo, Hv2 by exact Hn. reflexivity.
    + rewrite !string_app_assoc. reflexivity.
Qed.

Lemma pair_not_empty (n v : string) :
  String.eqb (urlencode n +:+ "=" +:+ urlencode v) "" = false.
Proof. destruct (urlencode n); reflexivity. Qed.

Lemma joined_not_empty (p : string * string) (ps : list (string * string)) :
  String.eqb (URLSearchParams_toString (p :: ps)) "" = false.
Proof.
  unfold URLSearchParams_toString. cbn [map join].
  destruct (map _ ps); [apply pair_not_empty |].
  destruct (urlencode (fst p)); reflexivity.
Qed.

Lemma split_joined (ps : list (string * string)) :
  ps <> [] ->
  split_on "&" (URLSearchParams_toString ps)
  = map (fun p => urlencode (fst p) +:+ "=" +:+ urlencode (snd p)) ps.
Proof.
  unfold URLSearchParams_toString.
  induction ps as [| p ps IH]; intros Hne; [congruence |].
  destruct ps as [| q ps].
  - cbn [map join]. apply (split_on_pair (fst p) (snd p) "").
  - change (join "&" (map _ (p :: q :: ps)))
      with ((urlencode (fst p) +:+ "=" +:+ urlencode (snd p)) +:+ "&"
            +:+ join "&" (map (fun p => urlencode (fst p) +:+ "="
                                          +:+ urlencode (snd p)) (q :: ps))).
    rewrite (proj2 (split_on_pair (fst p) (snd p) _)), IH by discriminate.
    reflexivity.
Qed.

End QueryFacts.

(** X4: the query string [fetchIndicators] sends reads back, by the
    rules of form decoding, as exactly the pairs that were appended, in
    order; no text of a parameter can add, remove or alter another
    one.  A value is serialized with letters, digits and [* - . _ + %]
    only. *)
Theorem query_string_round_trip (pairs : list (string * string)) :
  FormDecode.parse_query (URLSearchParams_toString pairs) = pairs
  /\ Forall (fun p =>
       forallb FormDecode.form_safe
         (String.list_ascii_of_string (urlencode (snd p))) = true) pairs.
Proof.
  split; [| apply Forall_true; intros p; apply urlencode_safe].
  unfold FormDecode.parse_query. destruct pairs as [| p ps]; [reflexivity |].
  rewrite joined_not_empty, split_joined by discriminate.
  rewrite map_map. rewrite <- (map_id (p :: ps)) at 2.
  apply map_ext. intros [n v]. cbn [fst snd].
  rewrite split_pair_safe by apply urlencode_safe.
  rewrite !urldecode_urlencode. reflexivity.
Qed.

(** X5: an empty search text, a limit or offset of 0 and an empty list
    are never sent: the request is the one for the same parameters with
    these left out, and with nothing else set it is the bare
    [/indicators]. *)
Theorem blank_parameters_are_dropped (p : IndicatorParams) :
  indicatorsEndpoint (Some p) = indicatorsEndpoint (Some (Params.without_blanks p))
  /\ (Params.without_blanks p = Params.nothing ->
      indicatorsEndpoint (Some p) = "/indicators")
  /\ indicatorsEndpoint None = "/indicators".
Proof.
  assert (Hq : queryParams (Some p) = queryParams (Some (Params.without_blanks p))).
  { unfold queryParams, Params.without_blanks. cbn.
    destruct p as [s t l src li o]. cbn.
    f_equal; [| f_equal; [| f_equal; [| f_equal; [| f_equal]]]].
    - destruct s as [s |]; [| reflexivity]. cbn.
      destruct (String.eqb s "") eqn:Hs; cbn; [reflexivity | rewrite Hs; reflexivity].
    - destruct li as [n |]; [| reflexivity]. cbn.
      destruct (n =? 0) eqn:Hn; cbn; [reflexivity | rewrite Hn; reflexivity].
    - destruct o as [n |]; [| reflexivity]. cbn.
      destruct (n =? 0) eqn:Hn; cbn; [reflexivity | rewrite Hn; reflexivity].
    - destruct t as [[| ? ?] |]; reflexivity.
    - destruct l as [[| ? ?] |]; reflexivity.
    - destruct src as [[| ? ?] |]; reflexivity. }
  split; [| split].
  - unfold indicatorsEndpoint. rewrite Hq. reflexivity.
  - intros Hb. unfold indicatorsEndpoint. rewrite Hq, Hb. reflexivity.
  - reflexivity.
Qed.

Lemma blank_parameters_are_dropped_witness :
  indicatorsEndpoint
    (Some {| search := Some ""; types := Some []; levels := None;
             sources := Some []; limit := Some 0; offset := Some 0 |})
  = "/indicators".
Proof.
  apply (proj1 (proj2 (blank_parameters_are_dropped _))). reflexivity.
Defined.

(** ** [ThreatTable], continued *)

Section TableSort.
Import Threat ThreatTable ThreatRow.

Lemma localeCompare_rank (a b : IOCType) :
  localeCompare (IOCType_name a) (IOCType_name b)
  = Int (Z.sgn (type_rank a - type_rank b)).
Proof. destruct a, b; reflexivity. Qed.

(** With both keys at hand the comparator says which comes first. *)
Lemma sort_le_keys (field : SortField) (direction : SortDirection)
    (a b : ThreatIndicator) (x y : Z) :
  sort_key field a = Some x -> sort_key field b = Some y ->
  sort_le (compareFn field direction) a b
  = match direction with asc => x <=? y | desc => y <=? x end.
Proof.
  unfold sort_le, compareFn.
  destruct field; cbn [sort_key]; intros Ha Hb.
  - injection Ha as <-. injection Hb as <-.
    destruct direction; cbn; apply eq_iff_eq_true; rewrite !Z.leb_le; lia.
  - rewrite Ha, Hb.
    destruct direction; cbn; apply eq_iff_eq_true; rewrite !Z.leb_le; lia.
  - injection Ha as <-. injection Hb as <-. rewrite localeCompare_rank.
    destruct direction; cbn; apply eq_iff_eq_true; rewrite !Z.leb_le; lia.
  - injection Ha as <-. injection Hb as <-.
    destruct direction; cbn; apply eq_iff_eq_true; rewrite !Z.leb_le; lia.
Qed.

Lemma insert_sorted_elem {A} (cmp : A -> A -> Number) (P : A -> Prop)
    (x : A) (l : list A) :
  P x -> Forall P l -> Forall P (insert_sorted cmp x l).
Proof.
  intros Hx Hl. induction Hl as [| y ys Hy Hys IH]; simpl.
  - constructor; [exact Hx | constructor].
  - destruct (sort_le cmp x y); repeat constructor; assumption.
Qed.

Lemma array_sort_elem {A} (cmp : A -> A -> Number) (P : A -> Prop)
    (l : list A) :
  Forall P l -> Forall P (array_sort cmp l).
Proof.
  induction 1 as [| x xs Hx Hxs IH]; simpl; [constructor |].
  apply insert_sorted_elem; assumption.
Qed.

(** Sortedness for a comparator that orders the elements of the list
    at hand. *)
Section OrderedOn.
Context {A : Type} (cmp : A -> A -> Number) (P : A -> Prop).
Hypothesis total_on : forall a b, P a -> P b ->
  sort_le cmp a b = false -> sort_le cmp b a = true.
Hypothesis trans_on : forall a b c, P a -> P b -> P c ->
  sort_le cmp a b = true -> sort_le cmp b c = true ->
  sort_le cmp a c = true.

Lemma insert_sorted_sorted_on (x : A) (l : list A) :
  P x -> Forall P l ->
  StronglySorted (fun a b => sort_le cmp a b = true) l ->
  StronglySorted (fun a b => sort_le cmp a b = true) (insert_sorted cmp x l).
Proof using total_on trans_on.
  intros Hx Hl Hs. induction Hs as [| y ys Hs IH Hy]; simpl.
  - constructor; constructor.
  - apply Forall_cons in Hl as [Py Pys].
    destruct (sort_le cmp x y) eqn:Hle.
    + constructor; [constructor; assumption |].
      constructor; [exact Hle |].
      rewrite Forall_forall in Hy, Pys |- *. intros z Hz.
      exact (trans_on _ _ _ Hx Py (Pys z Hz) Hle (Hy z Hz)).
    + constructor; [exact (IH Pys) |].
      apply (insert_sorted_elem cmp (fun z => sort_le cmp y z = true));
        [exact (total_on _ _ Hx Py Hle) | exact Hy].
Qed.

Lemma array_sort_sorted_on (l : list A) :
  Forall P l ->
  StronglySorted (fun a b => sort_le cmp a b = true) (array_sort cmp l).
Proof using total_on trans_on.
  induction 1 as [| x xs Hx Hxs IH]; simpl; [constructor |].
  apply insert_sorted_sorted_on;
    [exact Hx | apply array_sort_elem; exact Hxs | exact IH].
Qed.
End OrderedOn.

End TableSort.

(** X6: whatever column and direction are chosen, as long as no row
    has an invalid date in the sorted column, the displayed rows are
    the given rows in the order of that column in that direction
    (types alphabetically, levels from info up to critical), and rows
    that agree in the column keep the order they came in. *)
Theorem sortedIndicators_every_column (st : ThreatTable.State)
    (l : list Threat.ThreatIndicator) :
  Forall (fun r => is_Some (ThreatRow.sort_key (ThreatTable.sortField st) r)) l ->
  Permutation l (ThreatTable.sortedIndicators st l)
  /\ StronglySorted
       (fun a b =>
          ThreatRow.in_order (ThreatTable.sortDirection st)
            (ThreatRow.sort_key (ThreatTable.sortField st) a)
            (ThreatRow.sort_key (ThreatTable.sortField st) b))
       (ThreatTable.sortedIndicators st l)
  /\ (forall k,
        List.filter
          (fun r => bool_decide
                      (ThreatRow.sort_key (ThreatTable.sortField st) r = Some k))
          (ThreatTable.sortedIndicators st l)
        = List.filter
            (fun r => bool_decide
                        (ThreatRow.sort_key (ThreatTable.sortField st) r = Some k))
            l).
Proof.
  intros Hvalid. unfold ThreatTable.sortedIndicators.
  set (field := ThreatTable.sortField st) in *.
  set (dir := ThreatTable.sortDirection st).
  split; [apply array_sort_perm |]. split.
  - pose proof (array_sort_elem (ThreatTable.compareFn field dir) _ l Hvalid)
      as Hall.
    assert (Hs := array_sort_sorted_on (ThreatTable.compareFn field dir)
                    (fun r => is_Some (ThreatRow.sort_key field r))).
    cbv beta in Hs.
    assert (Hsorted : StronglySorted
              (fun a b => ThreatTable.sort_le (ThreatTable.compareFn field dir) a b
                          = true)
              (ThreatTable.array_sort (ThreatTable.compareFn field dir) l)).
    { apply Hs; [| | exact Hvalid].
      - intros a b [x Hx] [y Hy].
        rewrite (sort_le_keys field dir a b x y Hx Hy),
                (sort_le_keys field dir b a y x Hy Hx).
        destruct dir; rewrite Z.leb_gt, Z.leb_le; lia.
      - intros a b c [x Hx] [y Hy] [z Hz].
        rewrite (sort_le_keys field dir a b x y Hx Hy),
                (sort_le_keys field dir b c y z Hy Hz),
                (sort_le_keys field dir a c x z Hx Hz).
        destruct dir; rewrite !Z.leb_le; lia. }
    clear Hs. revert Hall Hsorted.
    generalize (ThreatTable.array_sort (ThreatTable.compareFn field dir) l).
    intros rows Hall Hsorted.
    induction Hsorted as [| r rs Hrs IH Hr]; constructor.
    + apply IH. apply Forall_cons in Hall as [_ Hall]. exact Hall.
    + apply Forall_cons in Hall as [[x Hx] Hall].
      rewrite Forall_forall in Hr, Hall |- *. intros b Hb.
      destruct (Hall b Hb) as [y Hy]. specialize (Hr b Hb).
      rewrite (sort_le_keys field dir r b x y Hx Hy) in Hr.
      rewrite Hx, Hy. destruct dir; cbn; apply Z.leb_le; exact Hr.
  - intros k. apply array_sort_filter. intros a b Ha Hb.
    apply bool_decide_eq_true in Ha, Hb.
    rewrite (sort_le_keys field dir a b k k Ha Hb).
    destruct dir; apply Z.leb_le; lia.
Qed.

Lemma sortedIndicators_every_column_witness :
  map Threat.id
    (ThreatTable.sortedIndicators
       (ThreatTable.handleSort ThreatTable.by_score
          (ThreatTable.handleSort ThreatTable.by_score ThreatTable.initial))
       [Sample.row "b" 50; Sample.row "c" 70; Sample.row "a" 50])
  = ["c"; "b"; "a"]
  /\ Permutation [Sample.row "b" 50; Sample.row "c" 70; Sample.row "a" 50]
       (ThreatTable.sortedIndicators
          (ThreatTable.handleSort ThreatTable.by_type ThreatTable.initial)
          [Sample.row "b" 50; Sample.row "c" 70; Sample.row "a" 50]).
Proof.
  split; [reflexivity |].
  apply (sortedIndicators_every_column
           (ThreatTable.handleSort ThreatTable.by_type ThreatTable.initial)).
  repeat constructor; cbn; eauto.
Defined.

(** X7: a click on a column header makes that column the sort column;
    on a column that was not the sort column it starts with the
    descending order, on the sort column it turns the direction round,
    so a second click undoes the first one there; the expanded rows and
    the copied mark are not touched. *)
Theorem handleSort_clicks (field : ThreatTable.SortField) (st : ThreatTable.State) :
  ThreatTable.sortField (ThreatTable.handleSort field st) = field
  /\ (ThreatTable.sortField st <> field ->
      ThreatTable.sortDirection (ThreatTable.handleSort field st)
      = ThreatTable.desc)
  /\ (ThreatTable.sortField st = field ->
      ThreatTable.sortDirection (ThreatTable.handleSort field st)
      <> ThreatTable.sortDirection st
      /\ ThreatTable.handleSort field (ThreatTable.handleSort field st) = st)
  /\ ThreatTable.handleSort field
       (ThreatTable.handleSort field (ThreatTable.handleSort field st))
     = ThreatTable.handleSort field st
  /\ ThreatTable.expandedRows (ThreatTable.handleSort field st)
     = ThreatTable.expandedRows st
  /\ ThreatTable.copiedId (ThreatTable.handleSort field st)
     = ThreatTable.copiedId st.
Proof.
  destruct st as [f d c e]. unfold ThreatTable.handleSort. cbn.
  destruct (decide (f = field)) as [-> | Hne]; cbn;
    repeat (rewrite decide_True by reflexivity; cbn);
    repeat split; try congruence; destruct d; cbn; congruence.
Qed.

(** *** The cells of a row *)

Section RowFacts.
Import Threat ThreatTable ThreatRow.

Lemma chips_app (a b : list Item) : chips (a ++ b) = chips a ++ chips b.
Proof. apply omap_app. Qed.

Lemma buttons_app (a b : list Item) : buttons (a ++ b) = buttons a ++ buttons b.
Proof. apply omap_app. Qed.

Lemma chips_Chip (l : list string) : chips (map Chip l) = l.
Proof. induction l as [| x l IH]; [reflexivity | cbn; f_equal; exact IH]. Qed.

Lemma buttons_Chip (l : list string) : buttons (map Chip l) = [].
Proof. induction l as [| x l IH]; [reflexivity | exact IH]. Qed.

Lemma tagsCell_expanded (st : State) (i : ThreatIndicator) :
  id i ∈ expandedRows st ->
  chips (tagsCell st i) = tags i
  /\ buttons (tagsCell st i)
     = if (2 <? length (tags i))%nat then ["Show less"] else [].
Proof.
  intros Hin. unfold tagsCell. rewrite bool_decide_eq_true_2 by exact Hin.
  rewrite chips_app, buttons_app, chips_Chip, buttons_Chip. cbn [andb].
  destruct (2 <? length (tags i))%nat; cbn; rewrite ?app_nil_r; auto.
Qed.

Lemma tagsCell_collapsed (st : State) (i : ThreatIndicator) :
  id i ∉ expandedRows st ->
  chips (tagsCell st i) = take 2 (tags i)
  /\ buttons (tagsCell st i)
     = if (2 <? length (tags i))%nat
       then ["+" +:+ pretty (length (tags i) - 2)%nat] else [].
Proof.
  intros Hin. unfold tagsCell. rewrite bool_decide_eq_false_2 by exact Hin.
  rewrite !chips_app, !buttons_app, chips_Chip, buttons_Chip. cbn [andb].
  destruct (2 <? length (tags i))%nat; cbn; rewrite ?app_nil_r; auto.
Qed.

Lemma first_word_no_space (s : string) :
  " "%char ∉ String.list_ascii_of_string (first_word s).
Proof.
  induction s as [| c s IH]; cbn; [apply not_elem_of_nil |].
  destruct (Ascii.eqb_spec c " ") as [-> | Hc]; cbn; [apply not_elem_of_nil |].
  rewrite not_elem_of_cons. split; [congruence | exact IH].
Qed.

Lemma first_word_prefix (s : string) :
  s = first_word s \/ exists rest, s = first_word s +:+ " " +:+ rest.
Proof.
  induction s as [| c s IH]; cbn; [left; reflexivity |].
  destruct (Ascii.eqb_spec c " ") as [-> | Hc].
  - right. exists s. reflexivity.
  - destruct IH as [IH | [rest IH]].
    + left. f_equal. exact IH.
    + right. exists rest.
      change (String c s = String c (first_word s +:+ " " +:+ rest)).
      f_equal. exact IH.
Qed.

End RowFacts.

(** X8: the tags cell of a row shows all tags when the row is expanded
    and the first two otherwise, with one button exactly when there are
    more than two tags ([+N] for the N hidden tags, or [Show less]); a
    click on that button swaps the two views of this row and changes
    the cell of no row with another id.  With at most two tags the cell
    is the same in both states. *)
Theorem tagsCell_views (st : ThreatTable.State) (i : Threat.ThreatIndicator) :
  let st' := ThreatTable.toggleRowExpansion (Threat.id i) st in
  (Threat.id i ∈ ThreatTable.expandedRows st ->
     ThreatRow.chips (ThreatRow.tagsCell st i) = Threat.tags i
     /\ ThreatRow.chips (ThreatRow.tagsCell st' i) = take 2 (Threat.tags i))
  /\ (Threat.id i ∉ ThreatTable.expandedRows st ->
        ThreatRow.chips (ThreatRow.tagsCell st i) = take 2 (Threat.tags i)
        /\ ThreatRow.chips (ThreatRow.tagsCell st' i) = Threat.tags i)
  /\ (length (ThreatRow.buttons (ThreatRow.tagsCell st i))
      = if (2 <? length (Threat.tags i))%nat then 1%nat else 0%nat)
  /\ (Threat.id i ∉ ThreatTable.expandedRows st ->
      (2 < length (Threat.tags i))%nat ->
      ThreatRow.buttons (ThreatRow.tagsCell st i)
      = ["+" +:+ pretty (length (Threat.tags i) - 2)%nat]
      /\ (length (ThreatRow.chips (ThreatRow.tagsCell st i))
          + (length (Threat.tags i) - 2) = length (Threat.tags i))%nat)
  /\ ((length (Threat.tags i) <= 2)%nat ->
      ThreatRow.tagsCell st' i = ThreatRow.tagsCell st i)
  /\ (forall j, Threat.id j <> Threat.id i ->
        ThreatRow.tagsCell st' j = ThreatRow.tagsCell st j).
Proof.
  cbv zeta.
  assert (Hflip : Threat.id i ∈ ThreatTable.expandedRows
                    (ThreatTable.toggleRowExpansion (Threat.id i) st)
                  <-> Threat.id i ∉ ThreatTable.expandedRows st).
  { destruct (decide (Threat.id i ∈ ThreatTable.expandedRows st)) as [Hin | Hin].
    - rewrite toggle_expanded_in by exact Hin.
      rewrite elem_of_difference, elem_of_singleton. tauto.
    - rewrite toggle_expanded_notin by exact Hin.
      rewrite elem_of_union, elem_of_singleton. tauto. }
  assert (Hother : forall x, x <> Threat.id i ->
             x ∈ ThreatTable.expandedRows
                   (ThreatTable.toggleRowExpansion (Threat.id i) st)
             <-> x ∈ ThreatTable.expandedRows st).
  { intros x Hx.
    destruct (decide (Threat.id i ∈ ThreatTable.expandedRows st)) as [Hin | Hin].
    - rewrite toggle_expanded_in by exact Hin.
      rewrite elem_of_difference, elem_of_singleton. tauto.
    - rewrite toggle_expanded_notin by exact Hin.
      rewrite elem_of_union, elem_of_singleton. tauto. }
  split; [| split; [| split; [| split; [| split]]]].
  - intros Hin. split; [apply tagsCell_expanded, Hin |].
    apply tagsCell_collapsed. rewrite Hflip. tauto.
  - intros Hin. split; [apply tagsCell_collapsed, Hin |].
    apply tagsCell_expanded. rewrite Hflip. exact Hin.
  - destruct (decide (Threat.id i ∈ ThreatTable.expandedRows st)) as [Hin | Hin].
    + rewrite (proj2 (tagsCell_expanded st i Hin)).
      destruct (2 <? length (Threat.tags i))%nat; reflexivity.
    + rewrite (proj2 (tagsCell_collapsed st i Hin)).
      destruct (2 <? length (Threat.tags i))%nat; reflexivity.
  - intros Hin Hlen. destruct (tagsCell_collapsed st i Hin) as [Hc Hb].
    rewrite Hb, Hc. rewrite (proj2 (Nat.ltb_lt _ _) Hlen).
    split; [reflexivity |]. rewrite length_take. lia.
  - intros Hlen. unfold ThreatRow.tagsCell.
    assert (Hno : (2 <? length (Threat.tags i))%nat = false)
      by (apply Nat.ltb_ge; exact Hlen).
    rewrite Hno, !andb_false_r, !app_nil_r.
    rewrite take_ge by exact Hlen.
    destruct (bool_decide _), (bool_decide _); reflexivity.
  - intros j Hj. unfold ThreatRow.tagsCell.
    rewrite (bool_decide_ext _ _ (Hother (Threat.id j) Hj)). reflexivity.
Qed.

(** X9: the sources cell shows at most two names, each the part of a
    source before its first space (so no shown name holds a space, and
    a source without a space is shown whole), and after them [+N] for
    the N sources beyond the second. *)
Theorem sourcesCell_first_words (i : Threat.ThreatIndicator) :
  exists names,
    ThreatRow.chips (ThreatRow.sourcesCell i)
    = names ++ (if (2 <? length (Threat.sources i))%nat
                then ["+" +:+ pretty (length (Threat.sources i) - 2)%nat]
                else [])
    /\ length names = Nat.min 2 (length (Threat.sources i))
    /\ Forall2 (fun source name =>
         (" "%char ∉ String.list_ascii_of_string name)
         /\ (source = name \/ exists rest, source = name +:+ " " +:+ rest))
         (take 2 (Threat.sources i)) names
    /\ ThreatRow.buttons (ThreatRow.sourcesCell i) = [].
Proof.
  exists (map ThreatRow.first_word (take 2 (Threat.sources i))).
  unfold ThreatRow.sourcesCell.
  rewrite chips_app, buttons_app.
  rewrite <- (map_map ThreatRow.first_word ThreatRow.Chip), chips_Chip, buttons_Chip.
  split; [| split; [| split]].
  - destruct (2 <? length (Threat.sources i))%nat; reflexivity.
  - rewrite length_map, length_take. reflexivity.
  - apply Forall2_fmap_r, Forall_Forall2_diag, Forall_true.
    intros s. split; [apply first_word_no_space | apply first_word_prefix].
  - destruct (2 <? length (Threat.sources i))%nat; reflexivity.
Qed.

(** ** [FeedStatus], continued *)

(** X10: a card always has five stars; the filled ones come first and
    their number is the reliability, cut off at 0 and at 5. *)
Theorem stars_clamped (reliability : Z) :
  FeedCard.stars reliability
  = replicate (Z.to_nat (Z.max 0 (Z.min 5 reliability))) true
    ++ replicate (5 - Z.to_nat (Z.max 0 (Z.min 5 reliability))) false.
Proof.
  unfold FeedCard.stars. cbn [map].
  destruct (Z.ltb_spec 0 reliability) as [H0 | H0];
  destruct (Z.ltb_spec 1 reliability) as [H1 | H1];
  destruct (Z.ltb_spec 2 reliability) as [H2 | H2];
  destruct (Z.ltb_spec 3 reliability) as [H3 | H3];
  destruct (Z.ltb_spec 4 reliability) as [H4 | H4]; try lia.
  - replace (Z.max 0 (Z.min 5 reliability)) with 5 by lia. reflexivity.
  - replace (Z.max 0 (Z.min 5 reliability)) with 4 by lia. reflexivity.
  - replace (Z.max 0 (Z.min 5 reliability)) with 3 by lia. reflexivity.
  - replace (Z.max 0 (Z.min 5 reliability)) with 2 by lia. reflexivity.
  - replace (Z.max 0 (Z.min 5 reliability)) with 1 by lia. reflexivity.
  - replace (Z.max 0 (Z.min 5 reliability)) with 0 by lia. reflexivity.
Qed.

(** X11: for every feed that [fetchFeeds] returns, the last-updated
    text of its card is never an error: it is [Unknown] when the host
    could not read [last_updated] as a date, and the distance to now
    otherwise. *)
Theorem lastUpdatedText_of_fetched `{Platform} `{Environment} `{FeedCard.DateFns}
    (r : Response) (ms : list (gmap string Value)) (i : nat)
    (m : gmap string Value) :
  fetch (API_BASE_URL +:+ "/feeds") (requestInit None) = Resolved r ->
  ok r = true -> json r = inr (Arr (Obj <$> ms)) ->
  ms !! i = Some m ->
  exists feeds feed,
    fetchFeeds = resolve (Arr feeds)
    /\ feeds !! i = Some feed
    /\ FeedCard.lastUpdatedText feed
       = inr (match date_time (prop m "last_updated") with
              | Some t => FeedCard.formatDistanceToNow t
              | None => "Unknown"
              end).
Proof.
  intros Hf Hok Hj Hi.
  unfold fetchFeeds. rewrite (apiFetch_ok _ _ r _ Hf Hok Hj).
  cbn [await resolve].
  match goal with
  | |- context [array_map _ ?f] =>
      set (cb := f);
      set (g := fun v => match cb v with inr r => r | inl _ => Undefined end)
  end.
  rewrite (array_map_objects cb g) by (intros m'; reflexivity).
  exists (g <$> (Obj <$> ms)), (g (Obj m)).
  split; [reflexivity |].
  split; [rewrite !list_lookup_fmap, Hi; reflexivity |].
  assert (Hg : Js.get (g (Obj m)) "lastUpdated"
               = inr (new_Date (prop m "last_updated"))).
  { clear. vm_compute. reflexivity. }
  unfold FeedCard.lastUpdatedText. rewrite Hg. cbn.
  destruct (date_time (prop m "last_updated")); reflexivity.
Qed.

Lemma lastUpdatedText_of_fetched_witness :
  exists feeds feed,
    @fetchFeeds Host.utc_en_US Sample.local = resolve (Arr feeds)
    /\ feeds !! 0%nat = Some feed
    /\ @FeedCard.lastUpdatedText Scenario.whole_days feed = inr "1 days ago".
Proof.
  destruct (@lastUpdatedText_of_fetched Host.utc_en_US Sample.local
              Scenario.whole_days
              {| ok := true; status := 200; statusText := "OK";
                 json := inr (Arr [Obj Sample.feed_without_count]) |}
              [Sample.feed_without_count] 0%nat Sample.feed_without_count
              eq_refl eq_refl eq_refl eq_refl)
    as (feeds & feed & Hfetch & Hfeed & Htext).
  exists feeds, feed. split; [exact Hfetch |]. split; [exact Hfeed | exact Htext].
Defined.

(** ** [SearchFilter] *)

Section ToggleFacts.
Context {A : Type} `{EqDecision A}.

(** The lemmas are about the shape shared by [toggleType] and
    [toggleLevel]. *)

Lemma toggle_elem_of (l : list A) (x y : A) :
  y ∈ (if bool_decide (x ∈ l) then filter (fun y => y ≠ x) l else l ++ [x])
  <-> (y = x /\ x ∉ l) \/ (y ≠ x /\ y ∈ l).
Proof.
  case_bool_decide as Hx.
  - rewrite list_elem_of_filter.
    destruct (decide (y = x)) as [-> | Hy]; tauto.
  - rewrite elem_of_app, list_elem_of_singleton.
    destruct (decide (y = x)) as [-> | Hy]; tauto.
Qed.

Lemma toggle_NoDup (l : list A) (x : A) : 
  NoDup l ->
  NoDup (if bool_decide (x ∈ l) then filter (fun y => y ≠ x) l else l ++ [x]).
Proof.
  intros Hnd. case_bool_decide as Hx.
  - apply NoDup_filter, Hnd.
  - apply NoDup_app. split; [exact Hnd |]. split; [| apply NoDup_singleton].
    intros y Hy Hy'. apply list_elem_of_singleton in Hy'. congruence.
Qed.

Lemma filter_ne_absent (l : list A) (x : A) :
  x ∉ l -> filter (fun y => y ≠ x) l = l.
Proof.
  induction l as [| y l IH]; intros Hx; [reflexivity |].
  apply not_elem_of_cons in Hx as [Hxy Hx].
  rewrite filter_cons_True by congruence. f_equal. exact (IH Hx).
Qed.

Lemma toggle_twice_absent (l : list A) (x : A) :
  x ∉ l ->
  (if bool_decide (x ∈ (if bool_decide (x ∈ l) then filter (fun y => y ≠ x) l else l ++ [x]))
   then filter (fun y => y ≠ x) (if bool_decide (x ∈ l) then filter (fun y => y ≠ x) l else l ++ [x])
   else (if bool_decide (x ∈ l) then filter (fun y => y ≠ x) l else l ++ [x]) ++ [x]) = l.
Proof.
  intros Hx. rewrite (bool_decide_eq_false_2 (x ∈ l)) by exact Hx.
  rewrite bool_decide_eq_true_2
    by (rewrite elem_of_app, list_elem_of_singleton; auto).
  rewrite filter_app, filter_cons_False, filter_nil, app_nil_r by auto.
  apply filter_ne_absent, Hx.
Qed.

Lemma toggle_twice_present (l : list A) (x : A) :
  x ∈ l ->
  (if bool_decide (x ∈ (if bool_decide (x ∈ l) then filter (fun y => y ≠ x) l else l ++ [x]))
   then filter (fun y => y ≠ x) (if bool_decide (x ∈ l) then filter (fun y => y ≠ x) l else l ++ [x])
   else (if bool_decide (x ∈ l) then filter (fun y => y ≠ x) l else l ++ [x]) ++ [x])
  = filter (fun y => y ≠ x) l ++ [x].
Proof.
  intros Hx. rewrite (bool_decide_eq_true_2 (x ∈ l)) by exact Hx.
  rewrite bool_decide_eq_false_2; [reflexivity |].
  rewrite list_elem_of_filter. tauto.
Qed.

End ToggleFacts.

(** X12: a click on a type (or level) in the filter panel flips the
    membership of that type in the selection and of no other; it never
    produces a duplicate.  Two clicks on a type that was not selected
    give back the selection as it was; on a selected type they give the
    same members, the clicked type now last. *)
Theorem toggleType_flips
    (types : list Threat.IOCType) (type : Threat.IOCType)
    (levels : list Threat.ThreatLevel) (level : Threat.ThreatLevel) :
  ((forall t, t ∈ SearchFilter.toggleType types type
              <-> (t = type /\ type ∉ types) \/ (t ≠ type /\ t ∈ types))
   /\ (NoDup types -> NoDup (SearchFilter.toggleType types type))
   /\ (type ∉ types ->
       SearchFilter.toggleType (SearchFilter.toggleType types type) type = types)
   /\ (type ∈ types ->
       SearchFilter.toggleType (SearchFilter.toggleType types type) type
       = filter (fun t => t ≠ type) types ++ [type]))
  /\ ((forall l, l ∈ SearchFilter.toggleLevel levels level
                 <-> (l = level /\ level ∉ levels) \/ (l ≠ level /\ l ∈ levels))
      /\ (NoDup levels -> NoDup (SearchFilter.toggleLevel levels level))
      /\ (level ∉ levels ->
          SearchFilter.toggleLevel (SearchFilter.toggleLevel levels level) level
          = levels)
      /\ (level ∈ levels ->
          SearchFilter.toggleLevel (SearchFilter.toggleLevel levels level) level
          = filter (fun l => l ≠ level) levels ++ [level])).
Proof.
  split.
  - split; [intros t; apply toggle_elem_of |].
    split; [apply toggle_NoDup |].
    split; [apply toggle_twice_absent | apply toggle_twice_present].
  - split; [intros l; apply toggle_elem_of |].
    split; [apply toggle_NoDup |].
    split; [apply toggle_twice_absent | apply toggle_twice_present].
Qed.

Section SelectionFacts.
Import SearchFilter.

Lemma act_NoDup (sel : Selection) (a : Action) :
  NoDup (selectedTypes sel) /\ NoDup (selectedLevels sel) ->
  NoDup (selectedTypes (act sel a)) /\ NoDup (selectedLevels (act sel a)).
Proof.
  intros [Ht Hl]. destruct a; cbn.
  - split; [apply toggle_NoDup, Ht | exact Hl].
  - split; [exact Ht | apply toggle_NoDup, Hl].
  - split; apply NoDup_nil_2.
Qed.

Lemma acts_NoDup (actions : list Action) (sel : Selection) :
  NoDup (selectedTypes sel) /\ NoDup (selectedLevels sel) ->
  NoDup (selectedTypes (foldl act sel actions))
  /\ NoDup (selectedLevels (foldl act sel actions)).
Proof.
  revert sel. induction actions as [| a actions IH]; intros sel Hsel;
    [exact Hsel |].
  cbn [foldl]. apply IH, act_NoDup, Hsel.
Qed.

Lemma types_bound (l : list Threat.IOCType) : NoDup l -> (length l <= 5)%nat.
Proof.
  intros Hnd. change 5%nat with (length iocTypes).
  apply submseteq_length, NoDup_submseteq; [exact Hnd |].
  intros x _. destruct x; unfold iocTypes; set_solver.
Qed.

Lemma levels_bound (l : list Threat.ThreatLevel) : NoDup l -> (length l <= 5)%nat.
Proof.
  intros Hnd. change 5%nat with (length threatLevels).
  apply submseteq_length, NoDup_submseteq; [exact Hnd |].
  intros x _. destruct x; unfold threatLevels; set_solver.
Qed.

End SelectionFacts.

(** X13: however the user clicks in the filter panel, starting from the
    empty selection, no type and no level is ever selected twice; so
    the number in the badge counts the active filters, it is at most
    10, and the panel reports active filters exactly when it is not
    0. *)
Theorem selection_never_repeats (actions : list SearchFilter.Action) :
  let sel := foldl SearchFilter.act SearchFilter.none actions in
  NoDup (SearchFilter.selectedTypes sel)
  /\ NoDup (SearchFilter.selectedLevels sel)
  /\ (SearchFilter.activeCount sel <= 10)%nat
  /\ (SearchFilter.hasActiveFilters sel = true
      <-> (0 < SearchFilter.activeCount sel)%nat).
Proof.
  cbv zeta.
  destruct (acts_NoDup actions SearchFilter.none) as [Ht Hl];
    [split; apply NoDup_nil_2 |].
  split; [exact Ht |]. split; [exact Hl |]. split.
  - unfold SearchFilter.activeCount.
    pose proof (types_bound _ Ht). pose proof (levels_bound _ Hl). lia.
  - unfold SearchFilter.hasActiveFilters, SearchFilter.activeCount.
    rewrite orb_true_iff, !Nat.ltb_lt. lia.
Qed.

(** ** [ExportButton] *)

Section ExportFacts.
Import ExportButton.

Lemma toISOString_valid (t : Z) : is_Some (toISOString (Some t)).
Proof.
  unfold toISOString. destruct (Host.civil_from_days _) as [[y m] d]. eauto.
Qed.

Lemma toISOString_None (d : option Z) : toISOString d = None <-> d = None.
Proof.
  split; [| intros ->; reflexivity].
  destruct d as [t |]; [| reflexivity].
  intros Hn. destruct (toISOString_valid t) as [s Hs]. congruence.
Qed.

Lemma exportOne_None (r : Threat.ThreatIndicator) :
  exportOne r = None
  <-> Threat.firstSeen r = None \/ Threat.lastSeen r = None.
Proof.
  unfold exportOne. rewrite <- !toISOString_None.
  destruct (toISOString (Threat.firstSeen r)),
           (toISOString (Threat.lastSeen r)); cbn; intuition congruence.
Qed.


Lemma exportData_None (now : Z) (rows : list Threat.ThreatIndicator) :
  exportData now rows = None
  <-> Exists (fun r => Threat.firstSeen r = None \/ Threat.lastSeen r = None)
        rows.
Proof.
  unfold exportData. destruct (toISOString_valid now) as [s ->]. cbn.
  destruct (mapM exportOne rows) as [es |] eqn:Hm; cbn.
  - split; [discriminate |]. intros Hex.
    apply (Exists_impl _ (fun r => exportOne r = None)) in Hex;
      [| intros r; apply exportOne_None].
    apply mapM_None_2 in Hex. congruence.
  - split; [| reflexivity]. intros _.
    apply mapM_None_1 in Hm. eapply Exists_impl; [exact Hm |].
    intros r. apply exportOne_None.
Qed.

(** A click that failed leaves the component exporting with no timer
    to end it, and no event changes that, whatever rows the button is
    given by then. *)
Lemma stuck_forever
    (events : list (list Threat.ThreatIndicator * Event)) (st : State) :
  isExporting st = true -> timerPending st = false ->
  foldl (fun s re => step (fst re) s (snd re)) st events = st.
Proof.
  intros He Ht. induction events as [| [rows e] events IH]; [reflexivity |].
  cbn [foldl fst snd]. replace (step rows st e) with st; [exact IH |].
  destruct e; cbn.
  - unfold disabled. rewrite He. reflexivity.
  - unfold timeout. rewrite Ht. reflexivity.
Qed.

End ExportFacts.


(** X15: when a row has an invalid date, a click on the enabled button
    produces no file and leaves the button disabled for as long as the
    component lives, whatever rows it is given later: the flag that
    disables it is set before the dates are serialized and only the
    timer of a completed export clears it. *)
Theorem failed_export_disables_for_good (now later : Z)
    (rows : list Threat.ThreatIndicator)
    (events : list (list Threat.ThreatIndicator * ExportButton.Event))
    (rows' : list Threat.ThreatIndicator) :
  Exists (fun r => Threat.firstSeen r = None \/ Threat.lastSeen r = None) rows ->
  ExportButton.disabled rows ExportButton.idle = false
  /\ snd (ExportButton.exportToJson now later rows ExportButton.idle) = None
  /\ ExportButton.disabled rows'
       (foldl (fun s re => ExportButton.step (fst re) s (snd re))
          (ExportButton.step rows ExportButton.idle
             (ExportButton.Click now later)) events)
     = true.
Proof.
  intros Hex.
  assert (Hne : ExportButton.disabled rows ExportButton.idle = false).
  { unfold ExportButton.disabled. cbn. destruct Hex; reflexivity. }
  assert (Hnone : ExportButton.exportData now rows = None)
    by (apply exportData_None; exact Hex).
  split; [exact Hne |]. split.
  - unfold ExportButton.exportToJson. rewrite Hnone. reflexivity.
  - cbn [ExportButton.step]. rewrite Hne.
    unfold ExportButton.exportToJson. rewrite Hnone. cbn [fst].
    rewrite stuck_forever by reflexivity. reflexivity.
Qed.

Lemma failed_export_disables_for_good_witness :
  ExportButton.disabled [Sample.row "a" 50]
    (foldl (fun s re => ExportButton.step (fst re) s (snd re))
       (ExportButton.step [Scenario.undated] ExportButton.idle
          (ExportButton.Click 1705449600000 1705449600001))
       [([Scenario.undated], ExportButton.Timeout);
        ([Sample.row "a" 50], ExportButton.Click 1705449700000 1705449700000)])
  = true.
Proof.
  apply (failed_export_disables_for_good 1705449600000 1705449600001
           [Scenario.undated]).
  constructor. right. reflexivity.
Defined.

(** X16: when every row has valid dates and there is at least one row,
    a click produces the file and disables the button; further clicks
    do nothing until the timer fires, which returns the component to
    its idle, enabled state. *)
Theorem completed_export_cycle (now later : Z)
    (rows : list Threat.ThreatIndicator) :
  rows <> [] ->
  Forall (fun r => is_Some (Threat.firstSeen r) /\ is_Some (Threat.lastSeen r))
    rows ->
  let st := ExportButton.step rows ExportButton.idle
              (ExportButton.Click now later) in
  is_Some (snd (ExportButton.exportToJson now later rows ExportButton.idle))
  /\ ExportButton.disabled rows st = true
  /\ (forall n l, ExportButton.step rows st (ExportButton.Click n l) = st)
  /\ ExportButton.step rows st ExportButton.Timeout = ExportButton.idle
  /\ ExportButton.disabled rows ExportButton.idle = false.
Proof.
  intros Hne Hvalid. cbv zeta.
  assert (Hen : ExportButton.disabled rows ExportButton.idle = false).
  { unfold ExportButton.disabled. cbn. destruct rows; [congruence | reflexivity]. }
  destruct (ExportButton.exportData now rows) as [data |] eqn:Hd.
  - cbn [ExportButton.step]. rewrite Hen.
    unfold ExportButton.exportToJson. rewrite Hd. cbn.
    repeat split; eauto.
  - exfalso. apply exportData_None in Hd.
    apply Exists_exists in Hd as (r & Hr & Hbad).
    rewrite Forall_forall in Hvalid. destruct (Hvalid r Hr) as [[? Hf] [? Hl]].
    destruct Hbad; congruence.
Qed.

Lemma completed_export_cycle_witness :
  ExportButton.step [Sample.row "a" 50]
    (ExportButton.step [Sample.row "a" 50] ExportButton.idle
       (ExportButton.Click 1705449600000 1705449600001))
    ExportButton.Timeout
  = ExportButton.idle.
Proof.
  apply (completed_export_cycle 1705449600000 1705449600001 [Sample.row "a" 50]).
  - discriminate.
  - repeat constructor; cbn; eauto.
Defined.

(** ** [Index] *)

(** X17: a refresh replaces the indicators, feeds and statistics all
    together or not at all.  When the three requests succeed the page
    holds their three results, no error, and shows the dashboard; when
    any of them fails the page keeps all three as they were, sets the
    error message and shows the error screen, whatever data it holds.
    Either way loading is over and the search text and filters are as
    before. *)
Theorem loadData_all_or_nothing `{Platform} `{Environment} (st : Index.State) :
  let st' := snd (Index.loadData st) in
  Index.loading st' = false
  /\ Index.searchQuery st' = Index.searchQuery st
  /\ Index.selection st' = Index.selection st
  /\ ((exists i f s,
         snd (fetchIndicators (Some (Index.params st))) = inr i
         /\ snd fetchFeeds = inr f /\ snd fetchStatistics = inr s
         /\ Index.indicators st' = i /\ Index.feeds st' = f
         /\ Index.stats st' = s
         /\ Index.error st' = None
         /\ Index.view st' = Index.Dashboard)
      \/ (((exists e, snd (fetchIndicators (Some (Index.params st))) = inl e)
           \/ (exists e, snd fetchFeeds = inl e)
           \/ (exists e, snd fetchStatistics = inl e))
          /\ Index.indicators st' = Index.indicators st
          /\ Index.feeds st' = Index.feeds st
          /\ Index.stats st' = Index.stats st
          /\ Index.error st' = Some Index.failure_message
          /\ Index.view st' = Index.ErrorScreen Index.failure_message)).
Proof.
  cbv zeta. unfold Index.loadData.
  destruct (fetchIndicators (Some (Index.params st))) as [li [ei | i]];
  destruct fetchFeeds as [lf [ef | f]];
  destruct fetchStatistics as [ls [es | s]]; cbn;
  (split; [reflexivity |]); (split; [reflexivity |]); (split; [reflexivity |]);
  try (left; exists i, f, s; repeat split; reflexivity);
  right; (split; [eauto |]); repeat split; reflexivity.
Qed.
